(** * Image generation server: generation and persistence adapters

    A shallow embedding of the image generation server (the server file
    with [saveGeneratedImages], [saveImages] and [generateImage], and the
    shared [imageGeneration] module), with the properties of its
    specification stated and proved over the embedding.

    Strings are sequences of UTF-16 code units, as JavaScript has them.
    The collaborators (file system, network, clock, image provider) are
    oracles that answer from the history of the interactions so far; the
    program threads that history through an exception-and-state monad. *)

From Stdlib Require Import ZArith NArith List Ascii String Lia Bool.
From Stdlib Require Import DecimalZ.
From stdpp Require Import base option list gmap.

Set Warnings "-register-all,-clear-no-such-hyp".
Local Open Scope N_scope.

(** ** Strings *)

(** A JavaScript string: its UTF-16 code units. *)
Abbreviation jstr := (list N).

(** A string literal of the source (ASCII). *)
Definition lit (s : string) : jstr := map N_of_ascii (list_ascii_of_string s).
Arguments lit : simpl never.

Module Unit.
Definition hyphen : N := 45.
Definition slash : N := 47.
Definition dot : N := 46.

Definition is_lower (c : N) : bool := (97 <=? c) && (c <=? 122).
Definition is_upper (c : N) : bool := (65 <=? c) && (c <=? 90).
Definition is_digit (c : N) : bool := (48 <=? c) && (c <=? 57).
End Unit.

(** [Number.prototype.toString] (radix 10) on an integer-valued number
    below 10^21 in magnitude: the decimal digits, with a leading minus
    sign for a negative number. *)
Fixpoint uint_units (d : Decimal.uint) : jstr :=
  match d with
  | Decimal.Nil => []
  | Decimal.D0 d => 48 :: uint_units d
  | Decimal.D1 d => 49 :: uint_units d
  | Decimal.D2 d => 50 :: uint_units d
  | Decimal.D3 d => 51 :: uint_units d
  | Decimal.D4 d => 52 :: uint_units d
  | Decimal.D5 d => 53 :: uint_units d
  | Decimal.D6 d => 54 :: uint_units d
  | Decimal.D7 d => 55 :: uint_units d
  | Decimal.D8 d => 56 :: uint_units d
  | Decimal.D9 d => 57 :: uint_units d
  end.

Definition Number_toString (z : Z) : jstr :=
  match Z.to_int z with
  | Decimal.Pos d => uint_units d
  | Decimal.Neg d => Unit.hyphen :: uint_units d
  end.

(** [s.slice(start, stop)] for non-negative bounds. *)
Definition String_slice (s : jstr) (start stop : nat) : jstr :=
  take (stop - start) (drop start s).

(** ** Regular expressions made of one character class *)

Module RegExp.

(** A class such as [[^a-z0-9]]: ranges of code units, possibly negated. *)
Record CharClass := {
  negated : bool;
  ranges : list (N * N)
}.

Record Flags := {
  global : bool;
  ignoreCase : bool
}.

(** [Canonicalize] of a pattern without the [u] flag: the upper-case
    form of the code unit.  A unit at or above 128 is never mapped to
    one below 128; such units are left as they are here, which gives
    the same membership in a class of ASCII ranges. *)
Definition canonicalize (fl : Flags) (c : N) : N :=
  if ignoreCase fl then (if Unit.is_lower c then c - 32 else c) else c.

Definition range_units (r : N * N) : list N :=
  map (fun k => fst r + N.of_nat k) (seq 0 (N.to_nat (N.succ (snd r) - fst r))).

Definition members (cls : CharClass) : list N :=
  flat_map range_units (ranges cls).

(** The class matches [c] when some member has the canonical form of
    [c]; a negated class inverts the answer. *)
Definition class_matches (fl : Flags) (cls : CharClass) (c : N) : bool :=
  xorb (negated cls)
       (existsb (fun a => canonicalize fl a =? canonicalize fl c) (members cls)).

(** [s.replace(re, replacement)] for a global single-class pattern:
    every matching code unit is replaced. *)
Definition replace_all (fl : Flags) (cls : CharClass) (replacement : jstr) (s : jstr) : jstr :=
  flat_map (fun c => if class_matches fl cls c then replacement else [c]) s.

End RegExp.

(** [String.prototype.toLowerCase] on ASCII text: the letters A-Z are
    mapped to a-z.  It is applied below to the result of the replacement
    only, which is ASCII (see [safePrompt_ascii]). *)
Definition toLowerCase (s : jstr) : jstr :=
  map (fun c => if Unit.is_upper c then c + 32 else c) s.

(** ** Filename derivation *)

(** The pattern [/[^a-z0-9]/gi]. *)
Definition unsafe_class : RegExp.CharClass :=
  {| RegExp.negated := true; RegExp.ranges := [(97, 122); (48, 57)] |}.
Definition gi : RegExp.Flags :=
  {| RegExp.global := true; RegExp.ignoreCase := true |}.

(** [prompt.slice(0, 30).replace(/[^a-z0-9]/gi, '-').toLowerCase()] *)
Definition safePrompt (prompt : jstr) : jstr :=
  toLowerCase (RegExp.replace_all gi unsafe_class (lit "-") (String_slice prompt 0 30)).

(** [`${safePrompt}-${timestamp}-${i}.png`] *)
Definition filename (prompt : jstr) (timestamp : Z) (i : nat) : jstr :=
  safePrompt prompt ++ lit "-" ++ Number_toString timestamp ++ lit "-"
    ++ Number_toString (Z.of_nat i) ++ lit ".png".

(** The derivation in the words of the specification: the first 30
    characters, each character outside a-z, A-Z, 0-9 replaced by a
    hyphen, the result lowercased, then hyphen, timestamp, hyphen, index
    and the extension. *)
Module Spec.
Definition allowed (c : N) : bool :=
  Unit.is_lower c || Unit.is_upper c || Unit.is_digit c.
Definition hyphenate (c : N) : N := if allowed c then c else Unit.hyphen.
Definition lower (c : N) : N := if Unit.is_upper c then c + 32 else c.
Definition derived_name (p : jstr) (t : Z) (i : nat) : jstr :=
  map lower (map hyphenate (take 30 p))
    ++ [Unit.hyphen] ++ Number_toString t ++ [Unit.hyphen]
    ++ Number_toString (Z.of_nat i) ++ lit ".png".
End Spec.


(** ** Paths (POSIX [path.join]) *)

(** [path.join] of Node on a POSIX system: the non-empty arguments are
    joined with a separator and the result is normalised segment by
    segment. *)

Module Path.

Definition seg_eqb (a b : jstr) : bool := bool_decide (a = b).

(** The segments between separators. *)
Fixpoint split (s : jstr) : list jstr :=
  match s with
  | [] => [[]]
  | c :: s' =>
      if c =? Unit.slash then [] :: split s'
      else match split s' with
           | seg :: segs => (c :: seg) :: segs
           | [] => [[c]]
           end
  end.

(** One segment against the stack of kept segments (innermost first):
    empty and [.] segments are dropped, [..] removes the innermost kept
    segment, or is itself kept above the root of a relative path. *)
Definition step (allowAboveRoot : bool) (stack : list jstr) (seg : jstr) : list jstr :=
  if seg_eqb seg [] || seg_eqb seg [Unit.dot] then stack
  else if seg_eqb seg [Unit.dot; Unit.dot] then
    match stack with
    | top :: below =>
        if seg_eqb top [Unit.dot; Unit.dot]
        then (if allowAboveRoot then seg :: stack else stack)
        else below
    | [] => if allowAboveRoot then [seg] else []
    end
  else seg :: stack.

Fixpoint intercalate (segs : list jstr) : jstr :=
  match segs with
  | [] => []
  | [x] => x
  | x :: rest => x ++ Unit.slash :: intercalate rest
  end.

Definition normalizeString (p : jstr) (allowAboveRoot : bool) : jstr :=
  intercalate (rev (fold_left (step allowAboveRoot) (split p) [])).

Definition ends_with_slash (p : jstr) : bool :=
  match last p with
  | Some c => c =? Unit.slash
  | None => false
  end.

Definition normalize (p : jstr) : jstr :=
  match p with
  | [] => lit "."
  | c :: _ =>
      let isAbsolute := c =? Unit.slash in
      let trailingSeparator := ends_with_slash p in
      match normalizeString p (negb isAbsolute) with
      | [] => if isAbsolute then lit "/"
              else if trailingSeparator then lit "./" else lit "."
      | body =>
          let body := if trailingSeparator then body ++ lit "/" else body in
          if isAbsolute then Unit.slash :: body else body
      end
  end.

Definition nonempty (s : jstr) : bool :=
  match s with [] => false | _ => true end.

Definition join (args : list jstr) : jstr :=
  match List.filter nonempty args with
  | [] => lit "."
  | segs => normalize (intercalate segs)
  end.

(** What [join [dir; name]] puts in front of a plain file name. *)
Definition dir_prefix (dir : jstr) : jstr :=
  match dir with
  | [] => []
  | c :: _ =>
      let isAbsolute := c =? Unit.slash in
      (if isAbsolute then [Unit.slash] else [])
        ++ concat (map (fun seg => seg ++ [Unit.slash])
                       (rev (fold_left (step (negb isAbsolute)) (split dir) [])))
  end.

(** A plain file name: not empty, not [.] or [..], no separator. *)
Definition plain (name : jstr) : Prop :=
  (Unit.slash ∉ name) ∧ name ≠ [] ∧ name ≠ [Unit.dot] ∧ name ≠ [Unit.dot; Unit.dot].

End Path.




(** ** Values, JSON documents and results *)

Inductive jsval :=
| VUndefined
| VNull
| VStr (s : jstr)
| VNum (z : Z)
| VArr (items : list jsval)
| VObj (fields : list (jstr * jsval)).

Inductive json :=
| JNull
| JStr (s : jstr)
| JNum (z : Z)
| JArr (items : list json)
| JObj (members : list (jstr * json)).

(** An optional string as a JavaScript value. *)
Definition of_optional (o : option jstr) : jsval :=
  match o with
  | Some s => VStr s
  | None => VUndefined
  end.

(** The document [JSON.stringify] writes for a value: an [undefined]
    array element becomes [null], a property whose value is [undefined]
    is left out, and [undefined] itself has no document. *)
Fixpoint serialize (v : jsval) : option json :=
  match v with
  | VUndefined => None
  | VNull => Some JNull
  | VStr s => Some (JStr s)
  | VNum z => Some (JNum z)
  | VArr items =>
      Some (JArr (map (fun x => match serialize x with Some d => d | None => JNull end) items))
  | VObj fields =>
      Some (JObj (omap (fun kv => match serialize (snd kv) with
                                  | Some d => Some (fst kv, d)
                                  | None => None
                                  end) fields))
  end.

Definition serialize_fields (fields : list (jstr * jsval)) : list (jstr * json) :=
  omap (fun kv => match serialize (snd kv) with
                  | Some d => Some (fst kv, d)
                  | None => None
                  end) fields.

(** A text: either a plain string, or the text of a JSON document at an
    indentation (the concrete characters of the document are not
    modelled, the document itself is). *)
Inductive TextBody :=
| Plain (s : jstr)
| JsonText (doc : json) (indent : nat).

(** [JSON.stringify(obj, null, indent)]; every call of the source passes
    an object literal. *)
Definition JSON_stringify (fields : list (jstr * jsval)) (indent : nat) : TextBody :=
  JsonText (JObj (serialize_fields fields)) indent.

(** The member of a JSON object under a key (the first, as keys of an
    object literal are distinct). *)
Fixpoint assoc (key : jstr) (members : list (jstr * json)) : option json :=
  match members with
  | [] => None
  | (k, d) :: rest => if bool_decide (k = key) then Some d else assoc key rest
  end.

Definition member (key : jstr) (d : json) : option json :=
  match d with
  | JObj members => assoc key members
  | _ => None
  end.

Definition elements (d : json) : option (list json) :=
  match d with
  | JArr items => Some items
  | _ => None
  end.

Inductive ContentItem :=
| TextContent (text : TextBody)
| ImageContent (data : option jstr) (mimeType : jstr).

Record CallToolResult := {
  content : list ContentItem;
  isError : option bool
}.

Inductive FileData :=
| Binary (bytes : list N)
| Utf8 (text : TextBody).

(** ** Collaborators and their history *)

(** What a [throw] carries: an [Error] instance with its message, or any
    other value (with its [String(...)] rendering). *)
Inductive Thrown :=
| ErrorObj (message : jstr)
| NonError (repr : jstr).

Inductive Outcome (A : Type) :=
| Return (a : A)
| Throw (e : Thrown).
Arguments Return {A} a.
Arguments Throw {A} e.

(** A response of [fetch]: the HTTP status and what reading the body
    with [arrayBuffer()] gives.  [fetch] resolves with a response
    whatever the status is; it rejects when the request itself fails. *)
Record Response := {
  status : N;
  arrayBuffer : Outcome (list N)
}.

Module OpenAI.
(** One entry of [response.data]. *)
Record Image := {
  url : option jstr;
  revised_prompt : option jstr
}.
End OpenAI.

Inductive Size := S1024x1024 | S1024x1792 | S1792x1024.
Inductive Quality := standard | hd.
Inductive Style := vivid | natural.

Module ImageGenerationParams.
Record t := {
  prompt : jstr;
  size : Size;
  quality : Quality;
  style : Style;
  n : Z
}.
End ImageGenerationParams.

Module SaveImagesParams.
Record t := {
  urls : list jstr;
  prompt : jstr;
  revisedPrompts : option (list jstr);
  outputDir : option jstr
}.
End SaveImagesParams.

(** The argument of [openai.images.generate]. *)
Record GenerateBody := {
  model : jstr;
  body : ImageGenerationParams.t
}.

(** One interaction with a collaborator, with its result. *)
Inductive Event :=
| EvMkdir (dir : jstr) (res : Outcome unit)
| EvFetch (url : jstr) (res : Outcome Response)
| EvNow (t : Z)
| EvWriteFile (file : jstr) (data : FileData) (res : Outcome unit)
| EvGenerate (apiKey : jstr) (req : GenerateBody) (res : Outcome (list OpenAI.Image)).

Abbreviation Trace := (list Event).

(** The environment of the process.  Each collaborator answers from the
    history so far, so the same call may be answered differently at
    different moments. *)
Record Env := {
  cwd : jstr;
  OPENAI_API_KEY : option jstr;
  fs_mkdir : Trace -> jstr -> Outcome unit;
  fs_writeFile : Trace -> jstr -> FileData -> Outcome unit;
  net_fetch : Trace -> jstr -> Outcome Response;
  clock : Trace -> Z;
  images_generate : Trace -> jstr -> GenerateBody -> Outcome (list OpenAI.Image)
}.

(** The value thrown by an interaction, if it failed. *)
Definition thrown_by (ev : Event) : option Thrown :=
  match ev with
  | EvMkdir _ (Throw e) | EvFetch _ (Throw e)
  | EvWriteFile _ _ (Throw e) | EvGenerate _ _ (Throw e) => Some e
  | EvFetch _ (Return r) =>
      match arrayBuffer r with Throw e => Some e | Return _ => None end
  | _ => None
  end.

Definition is_mkdir (ev : Event) : bool :=
  match ev with
  | EvMkdir _ _ => true
  | _ => false
  end.

(** The files a history leaves on disk: each successful write replaces
    the file's data; nothing is ever removed. *)
Definition apply_event (d : gmap jstr FileData) (ev : Event) : gmap jstr FileData :=
  match ev with
  | EvWriteFile file data (Return _) => <[file := data]> d
  | _ => d
  end.

Definition disk (tr : Trace) : gmap jstr FileData := fold_left apply_event tr ∅.

(** The successful writes of a history, in order. *)
Definition written (tr : Trace) : list (jstr * FileData) :=
  omap (fun ev => match ev with
                  | EvWriteFile file data (Return _) => Some (file, data)
                  | _ => None
                  end) tr.

(** The directories a history created on request: the arguments of its
    successful [mkdir] calls.  The calls are recursive, so the file
    system may have created missing ancestors along with a directory
    listed here; a history does not tell which. *)
Definition created (tr : Trace) : list jstr :=
  omap (fun ev => match ev with
                  | EvMkdir dir (Return _) => Some dir
                  | _ => None
                  end) tr.

(** The [mkdir] calls of a history, successful or not. *)
Definition mkdir_calls (tr : Trace) : list jstr :=
  omap (fun ev => match ev with EvMkdir dir _ => Some dir | _ => None end) tr.

(** The downloads a history attempted. *)
Definition downloads (tr : Trace) : list jstr :=
  omap (fun ev => match ev with EvFetch u _ => Some u | _ => None end) tr.

(** The requests a history sent to the image provider. *)
Definition provider_calls (tr : Trace) : list GenerateBody :=
  omap (fun ev => match ev with EvGenerate _ req _ => Some req | _ => None end) tr.

(** ** Computations *)

Definition M (A : Type) : Type := Trace -> Outcome A * Trace.

Definition ret {A} (a : A) : M A := fun tr => (Return a, tr).
Definition throw {A} (e : Thrown) : M A := fun tr => (Throw e, tr).
Definition bind {A B} (m : M A) (k : A -> M B) : M B :=
  fun tr => match m tr with
            | (Return a, tr') => k a tr'
            | (Throw e, tr') => (Throw e, tr')
            end.
Definition try_catch {A} (m : M A) (handler : Thrown -> M A) : M A :=
  fun tr => match m tr with
            | (Return a, tr') => (Return a, tr')
            | (Throw e, tr') => handler e tr'
            end.
(** [await] of an already determined outcome. *)
Definition await {A} (o : Outcome A) : M A := fun tr => (o, tr).

Notation "'let!' x ':=' m 'in' k" := (bind m (fun x => k))
  (at level 10, x name, m at level 100, k at level 200).

(** [a || b] on an optional string: [undefined] and the empty string
    are falsy. *)
Definition or_else (a : option jstr) (b : jstr) : jstr :=
  match a with
  | Some (c :: s) => c :: s
  | _ => b
  end.

(** [!a] on an optional string. *)
Definition falsy (a : option jstr) : bool :=
  match a with
  | Some (_ :: _) => false
  | _ => true
  end.

Section Effects.

Variable env : Env.

(** [fs.mkdir(dir, { recursive: true })], the only form of the call in
    the source: an [EvMkdir] stands for a recursive call. *)
Definition mkdir (dir : jstr) : M unit :=
  fun tr => let r := fs_mkdir env tr dir in (r, tr ++ [EvMkdir dir r]).

Definition writeFile (file : jstr) (data : FileData) : M unit :=
  fun tr => let r := fs_writeFile env tr file data in (r, tr ++ [EvWriteFile file data r]).

Definition fetch (u : jstr) : M Response :=
  fun tr => let r := net_fetch env tr u in (r, tr ++ [EvFetch u r]).

Definition Date_now : M Z :=
  fun tr => let t := clock env tr in (Return t, tr ++ [EvNow t]).

Definition generate (apiKey : jstr) (req : GenerateBody) : M (list OpenAI.Image) :=
  fun tr => let r := images_generate env tr apiKey req in
            (r, tr ++ [EvGenerate apiKey req r]).

End Effects.

(** The argument built for [openai.images.generate]. *)
Definition generate_body (params : ImageGenerationParams.t) : GenerateBody :=
  {| model := lit "dall-e-3"; body := params |}.

Definition error_result (text : jstr) : CallToolResult :=
  {| content := [TextContent (Plain text)]; isError := Some true |}.

(** The [catch] clause of both [generateImage] functions. *)
Definition generation_failed (error : Thrown) : M CallToolResult :=
  match error with
  | ErrorObj m => ret (error_result (lit "Image generation failed: " ++ m))
  | NonError _ => throw error
  end.

(** ** The server file *)

Module Server.
Section Program.

Variable env : Env.

(** The metadata object of one saved image. *)
Definition metadata (prompt : jstr) (revisedPrompt : option jstr) (u : jstr)
           (timestamp : Z) (name : jstr) : list (jstr * jsval) :=
  [ (lit "original_prompt", VStr prompt);
    (lit "revised_prompt", of_optional revisedPrompt);
    (lit "url", VStr u);
    (lit "timestamp", VNum timestamp);
    (lit "filename", VStr name) ].

(** The body of the [for] loop of [saveGeneratedImages] at index [i],
    up to the path it pushes on [savedPaths]. *)
Definition save_one (targetDir prompt : jstr) (revisedPrompts : list (option jstr))
           (i : nat) (u : jstr) : M jstr :=
  let revisedPrompt := mjoin (revisedPrompts !! i) in
  let! response := fetch env u in
  let! buffer := await (arrayBuffer response) in
  let! timestamp := Date_now env in
  let name := filename prompt timestamp i in
  let filePath := Path.join [targetDir; name] in
  let! _ := writeFile env filePath (Binary buffer) in
  let! _ := writeFile env (filePath ++ lit ".json")
              (Utf8 (JSON_stringify (metadata prompt revisedPrompt u timestamp name) 2)) in
  ret filePath.

(** The loop itself: [rest] is what remains of [urls] from index [i]
    on. *)
Fixpoint save_loop (targetDir prompt : jstr) (revisedPrompts : list (option jstr))
         (i : nat) (rest : list jstr) (savedPaths : list jstr) : M (list jstr) :=
  match rest with
  | [] => ret savedPaths
  | u :: rest' =>
      let! filePath := save_one targetDir prompt revisedPrompts i u in
      save_loop targetDir prompt revisedPrompts (S i) rest' (savedPaths ++ [filePath])
  end.

Definition message_of (e : Thrown) : jstr :=
  match e with
  | ErrorObj m => m
  | NonError r => r
  end.

Definition saveGeneratedImages (urls : list jstr) (revisedPrompts : list (option jstr))
           (prompt : jstr) (outputDir : option jstr) : M (list jstr) :=
  let targetDir := or_else outputDir (Path.join [cwd env; lit "images"]) in
  let! _ := try_catch (mkdir env targetDir)
              (fun error => throw (ErrorObj (lit "Failed to create directory: "
                                               ++ message_of error))) in
  save_loop targetDir prompt revisedPrompts 0 urls [].

(** [params.revisedPrompts || params.urls.map(() => undefined)]; an
    array, even an empty one, is truthy. *)
Definition revisedPrompts_or_default (params : SaveImagesParams.t) : list (option jstr) :=
  match SaveImagesParams.revisedPrompts params with
  | Some l => map Some l
  | None => map (fun _ => None) (SaveImagesParams.urls params)
  end.

Definition saved_result (params : SaveImagesParams.t) (savedPaths : list jstr) : CallToolResult :=
  {| content :=
       [TextContent (JSON_stringify
          [ (lit "saved_paths", VArr (map VStr savedPaths));
            (lit "message",
             VStr (lit "Successfully saved "
                     ++ Number_toString (Z.of_nat (length savedPaths))
                     ++ lit " images to "
                     ++ or_else (SaveImagesParams.outputDir params) (lit "images")
                     ++ lit " directory")) ] 0)];
     isError := None |}.

Definition saveImages (params : SaveImagesParams.t) : M CallToolResult :=
  try_catch
    (let! savedPaths :=
       saveGeneratedImages (SaveImagesParams.urls params)
                           (revisedPrompts_or_default params)
                           (SaveImagesParams.prompt params)
                           (SaveImagesParams.outputDir params) in
     ret (saved_result params savedPaths))
    (fun error =>
       match error with
       | ErrorObj m => ret (error_result (lit "Failed to save images: " ++ m))
       | NonError _ => throw error
       end).

(** [generateImage] of the server file, the handler registered for
    [image_generation].  Building the client with [new OpenAI] has no
    interaction of its own; the key is passed on with the call. *)
Definition generateImage (params : ImageGenerationParams.t) : M CallToolResult :=
  let apiKey := OPENAI_API_KEY env in
  if falsy apiKey then throw (ErrorObj (lit "OpenAI API key is not available"))
  else
    try_catch
      (let! data := generate env (or_else apiKey []) (generate_body params) in
       ret {| content :=
                [TextContent (JSON_stringify
                   [ (lit "urls", VArr (map (fun image => of_optional (OpenAI.url image)) data));
                     (lit "revised_prompts",
                      VArr (map (fun image => of_optional (OpenAI.revised_prompt image)) data)) ]
                   0)];
              isError := None |})
      generation_failed.

End Program.
End Server.

(** ** The shared image generation module *)

Module ImageGeneration.

(** [generateImage] of [shared/imageGeneration]: one image item per
    entry of the provider's response. *)
Definition generateImage (env : Env) (params : ImageGenerationParams.t) : M CallToolResult :=
  let apiKey := OPENAI_API_KEY env in
  if falsy apiKey then throw (ErrorObj (lit "OpenAI API key is not available"))
  else
    try_catch
      (let! data := generate env (or_else apiKey []) (generate_body params) in
       ret {| content := map (fun image => ImageContent (OpenAI.url image) (lit "image/png")) data;
              isError := None |})
      generation_failed.

End ImageGeneration.


(** ** Names and results *)

(** A lower-case letter, a digit or a hyphen. *)
Definition safe_unit (c : N) : bool :=
  Unit.is_lower c || Unit.is_digit c || (c =? Unit.hyphen).

Definition extension : jstr := lit ".png".

(** [outputDir || path.join(process.cwd(), 'images')] *)
Definition target_dir (env : Env) (outputDir : option jstr) : jstr :=
  or_else outputDir (Path.join [cwd env; lit "images"]).

(** The JSON document of a result whose only content item is a JSON
    text, and a member of it. *)
Definition result_document (r : CallToolResult) : option json :=
  match content r with
  | [TextContent (JsonText d _)] => Some d
  | _ => None
  end.

Definition result_member (key : jstr) (r : CallToolResult) : option json :=
  match result_document r with
  | Some d => member key d
  | None => None
  end.

(** The plain text of an error result. *)
Definition result_text (r : CallToolResult) : option jstr :=
  match content r with
  | [TextContent (Plain s)] => Some s
  | _ => None
  end.

(** The document element of an optional string in an array. *)
Definition nullable (o : option jstr) : json :=
  match o with
  | Some s => JStr s
  | None => JNull
  end.

(** The clock readings of a history, in order. *)
Definition clock_readings (tr : Trace) : list Z :=
  omap (fun ev => match ev with EvNow t => Some t | _ => None end) tr.

(** The document of a sidecar: the members written, and their values. *)
Definition sidecar_document (prompt : jstr) (revisedPrompt : option jstr) (u : jstr)
           (timestamp : Z) (name : jstr) : json :=
  JObj (serialize_fields (Server.metadata prompt revisedPrompt u timestamp name)).

(** ** What a batch leaves behind *)

(** What the loop obtained for one image: the response to the download
    and the clock reading taken after it. *)
Record Saved := {
  sv_url : jstr;
  sv_status : N;
  sv_bytes : list N;
  sv_timestamp : Z
}.

Section Batch.

Variables (targetDir prompt : jstr) (revisedPrompts : list (option jstr)).

Definition image_path (i : nat) (it : Saved) : jstr :=
  Path.join [targetDir; filename prompt (sv_timestamp it) i].

Definition sidecar_path (i : nat) (it : Saved) : jstr :=
  image_path i it ++ lit ".json".

Definition sidecar_fields (i : nat) (it : Saved) : list (jstr * jsval) :=
  Server.metadata prompt (mjoin (revisedPrompts !! i)) (sv_url it)
                  (sv_timestamp it) (filename prompt (sv_timestamp it) i).

Definition sidecar_data (i : nat) (it : Saved) : FileData :=
  Utf8 (JSON_stringify (sidecar_fields i it) 2).

Definition item_events (i : nat) (it : Saved) : Trace :=
  [ EvFetch (sv_url it)
            (Return {| status := sv_status it; arrayBuffer := Return (sv_bytes it) |});
    EvNow (sv_timestamp it);
    EvWriteFile (image_path i it) (Binary (sv_bytes it)) (Return tt);
    EvWriteFile (sidecar_path i it) (sidecar_data i it) (Return tt) ].

Definition item_writes (i : nat) (it : Saved) : list (jstr * FileData) :=
  [ (image_path i it, Binary (sv_bytes it));
    (sidecar_path i it, sidecar_data i it) ].

(** Events, paths and writes of the items from index [i] on. *)
Fixpoint batch_events (i : nat) (items : list Saved) : Trace :=
  match items with
  | [] => []
  | it :: items' => item_events i it ++ batch_events (S i) items'
  end.

Fixpoint batch_paths (i : nat) (items : list Saved) : list jstr :=
  match items with
  | [] => []
  | it :: items' => image_path i it :: batch_paths (S i) items'
  end.

Fixpoint batch_writes (i : nat) (items : list Saved) : list (jstr * FileData) :=
  match items with
  | [] => []
  | it :: items' => item_writes i it ++ batch_writes (S i) items'
  end.

End Batch.

(** ** Answers of the environment *)

Section Answers.

Variables (env : Env) (targetDir prompt : jstr) (revisedPrompts : list (option jstr)).

(** The environment answered the interactions of one pass as [it]
    records, starting from the history [tr]. *)
Definition answered_item (tr : Trace) (i : nat) (it : Saved) : Prop :=
  let fetched := EvFetch (sv_url it)
                   (Return {| status := sv_status it; arrayBuffer := Return (sv_bytes it) |}) in
  let image := EvWriteFile (image_path targetDir prompt i it) (Binary (sv_bytes it)) (Return tt) in
  net_fetch env tr (sv_url it)
    = Return {| status := sv_status it; arrayBuffer := Return (sv_bytes it) |}
  /\ clock env (tr ++ [fetched]) = sv_timestamp it
  /\ fs_writeFile env (tr ++ [fetched; EvNow (sv_timestamp it)])
       (image_path targetDir prompt i it) (Binary (sv_bytes it)) = Return tt
  /\ fs_writeFile env (tr ++ [fetched; EvNow (sv_timestamp it); image])
       (sidecar_path targetDir prompt i it)
       (sidecar_data prompt revisedPrompts i it) = Return tt.

Fixpoint answered (tr : Trace) (i : nat) (items : list Saved) : Prop :=
  match items with
  | [] => True
  | it :: items' =>
      answered_item tr i it
      /\ answered (tr ++ item_events targetDir prompt revisedPrompts i it) (S i) items'
  end.

(** A download fails with [e] when [fetch] rejects with it, or when
    reading the body of the response does. *)
Definition download_fails (r : Outcome Response) (e : Thrown) : Prop :=
  r = Throw e \/ exists st, r = Return {| status := st; arrayBuffer := Throw e |}.

(** Every download of [us] succeeds, and every write succeeds, whatever
    the history. *)
Definition downloads_succeed (us : list jstr) : Prop :=
  forall tr u, u ∈ us ->
    exists st bytes, net_fetch env tr u = Return {| status := st; arrayBuffer := Return bytes |}.

Definition writes_succeed : Prop :=
  forall tr file data, fs_writeFile env tr file data = Return tt.

End Answers.

(** ** Ways an operation can end *)

(** How an operation that started at history [tr] can end, where
    [prefix] is what the operation puts in front of an error message:
    - with a success result, and then no interaction failed;
    - with an error result carrying the message of the [Error] thrown by
      the last interaction (or, for a directory that could not be
      created, a message made from whatever was thrown);
    - by re-throwing a value that is not an [Error] instance, thrown by
      the last interaction. *)
Inductive Boundary (prefix : jstr) (tr : Trace) : Outcome CallToolResult * Trace -> Prop :=
| boundary_success r new :
    isError r = None ->
    Forall (fun ev => thrown_by ev = None) new ->
    Boundary prefix tr (Return r, tr ++ new)
| boundary_error r m e pre ev :
    isError r = Some true ->
    result_text r = Some (prefix ++ m) ->
    Forall (fun ev => thrown_by ev = None) pre ->
    thrown_by ev = Some e ->
    (e = ErrorObj m
     \/ is_mkdir ev = true
        /\ m = lit "Failed to create directory: " ++ Server.message_of e) ->
    Boundary prefix tr (Return r, tr ++ pre ++ [ev])
| boundary_rethrow v pre ev :
    Forall (fun ev => thrown_by ev = None) pre ->
    thrown_by ev = Some (NonError v) ->
    is_mkdir ev = false ->
    Boundary prefix tr (Throw (NonError v), tr ++ pre ++ [ev]).

(** ** Concrete environments *)

Module Scenario.

(** A cooperative environment: every directory can be created, every
    write succeeds, every URL answers 200 with a body (the URL's own
    code units stand for the bytes), the clock advances by one
    millisecond per interaction, and the provider returns two images,
    the second without a revised prompt. *)
Definition two_images : list OpenAI.Image :=
  [ {| OpenAI.url := Some (lit "http://x/1.png");
       OpenAI.revised_prompt := Some (lit "a red fox, vivid") |};
    {| OpenAI.url := Some (lit "http://x/2.png"); OpenAI.revised_prompt := None |} ].

Definition steady : Env :=
  {| cwd := lit "/srv/app";
     OPENAI_API_KEY := Some (lit "sk-test");
     fs_mkdir := fun _ _ => Return tt;
     fs_writeFile := fun _ _ _ => Return tt;
     net_fetch := fun _ u => Return {| status := 200; arrayBuffer := Return u |};
     clock := fun tr => (1700000000000 + Z.of_nat (length tr))%Z;
     images_generate := fun _ _ _ => Return two_images |}.

(** The save request of the specification's scenario. *)
Definition red_fox : SaveImagesParams.t :=
  {| SaveImagesParams.urls := [lit "http://x/1.png"; lit "http://x/2.png"];
     SaveImagesParams.prompt := lit "A Red Fox!!";
     SaveImagesParams.revisedPrompts := None;
     SaveImagesParams.outputDir := Some (lit "/tmp/out") |}.

(** The generation request of the specification's scenario. *)
Definition red_fox_request : ImageGenerationParams.t :=
  {| ImageGenerationParams.prompt := lit "a red fox";
     ImageGenerationParams.size := S1024x1024;
     ImageGenerationParams.quality := standard;
     ImageGenerationParams.style := vivid;
     ImageGenerationParams.n := 2 |}.

End Scenario.

Module Rejecting.

(** A network layer that rejects with a bare string instead of an
    [Error] instance. *)
Definition env : Env :=
  {| cwd := cwd Scenario.steady;
     OPENAI_API_KEY := OPENAI_API_KEY Scenario.steady;
     fs_mkdir := fs_mkdir Scenario.steady;
     fs_writeFile := fs_writeFile Scenario.steady;
     net_fetch := fun _ _ => Throw (NonError (lit "socket hang up"));
     clock := clock Scenario.steady;
     images_generate := images_generate Scenario.steady |}.

End Rejecting.

Module NotFound.

(** A server that answers every URL with status 404 and an error
    page. *)
Definition env : Env :=
  {| cwd := cwd Scenario.steady;
     OPENAI_API_KEY := OPENAI_API_KEY Scenario.steady;
     fs_mkdir := fs_mkdir Scenario.steady;
     fs_writeFile := fs_writeFile Scenario.steady;
     net_fetch := fun _ _ => Return {| status := 404; arrayBuffer := Return (lit "Not Found") |};
     clock := clock Scenario.steady;
     images_generate := images_generate Scenario.steady |}.

End NotFound.

Module Flaky.

(** A network on which the second URL of the scenario cannot be
    resolved. *)
Definition env : Env :=
  {| cwd := cwd Scenario.steady;
     OPENAI_API_KEY := OPENAI_API_KEY Scenario.steady;
     fs_mkdir := fs_mkdir Scenario.steady;
     fs_writeFile := fs_writeFile Scenario.steady;
     net_fetch := fun tr u =>
       if bool_decide (u = lit "http://x/2.png")
       then Throw (ErrorObj (lit "getaddrinfo ENOTFOUND x"))
       else net_fetch Scenario.steady tr u;
     clock := clock Scenario.steady;
     images_generate := images_generate Scenario.steady |}.

End Flaky.

Module Unconfigured.

(** A process without [OPENAI_API_KEY]. *)
Definition env : Env :=
  {| cwd := cwd Scenario.steady;
     OPENAI_API_KEY := None;
     fs_mkdir := fs_mkdir Scenario.steady;
     fs_writeFile := fs_writeFile Scenario.steady;
     net_fetch := net_fetch Scenario.steady;
     clock := clock Scenario.steady;
     images_generate := images_generate Scenario.steady |}.

End Unconfigured.

Module Revised.

(** The scenario's request with a revised prompt for the first image
    only. *)
Definition params : SaveImagesParams.t :=
  {| SaveImagesParams.urls := SaveImagesParams.urls Scenario.red_fox;
     SaveImagesParams.prompt := SaveImagesParams.prompt Scenario.red_fox;
     SaveImagesParams.revisedPrompts := Some [lit "a red fox, vivid"];
     SaveImagesParams.outputDir := SaveImagesParams.outputDir Scenario.red_fox |}.

End Revised.

Module ReadOnly.

(** A file system on which no directory can be created. *)
Definition env : Env :=
  {| cwd := cwd Scenario.steady;
     OPENAI_API_KEY := OPENAI_API_KEY Scenario.steady;
     fs_mkdir := fun _ _ => Throw (ErrorObj (lit "EACCES: permission denied, mkdir"));
     fs_writeFile := fs_writeFile Scenario.steady;
     net_fetch := net_fetch Scenario.steady;
     clock := clock Scenario.steady;
     images_generate := images_generate Scenario.steady |}.

Definition empty_batch : SaveImagesParams.t :=
  {| SaveImagesParams.urls := [];
     SaveImagesParams.prompt := lit "A Red Fox!!";
     SaveImagesParams.revisedPrompts := None;
     SaveImagesParams.outputDir := Some (lit "/tmp/out") |}.

End ReadOnly.

(** The paths saved for the scenario's request in the cooperative
    environment. *)
Module RedFoxRun.
Definition first_path : jstr := lit "/tmp/out/a-red-fox---1700000000002-0.png".
Definition second_path : jstr := lit "/tmp/out/a-red-fox---1700000000006-1.png".
End RedFoxRun.

(** ** Schemas (zod) *)

Module Zod.

(** The schemas the source builds: [z.string()], [z.number()] with its
    bounds, [z.enum([...])], [z.array(...)], [z.object({...})],
    [.optional()] and [.default(...)]. *)
Inductive schema :=
| ZString
| ZNumber (min max : option Z)
| ZEnum (values : list jstr)
| ZArray (elem : schema)
| ZObject (shape : list (jstr * schema))
| ZOptional (inner : schema)
| ZDefault (inner : schema) (value : jsval).

(** [obj[key]] with [key in obj]: the property of an object under a
    key, if it has one. *)
Fixpoint field (key : jstr) (fields : list (jstr * jsval)) : option jsval :=
  match fields with
  | [] => None
  | (k, v) :: rest => if bool_decide (k = key) then Some v else field key rest
  end.

Definition within (min max : option Z) (z : Z) : bool :=
  match min with Some lo => (lo <=? z)%Z | None => true end
  && match max with Some hi => (z <=? hi)%Z | None => true end.

Definition is_undefined (v : jsval) : bool :=
  match v with
  | VUndefined => true
  | _ => false
  end.

(** [schema.safeParse(v)]: the parsed value, or nothing when [v] is
    rejected.  An object schema reads the keys of its shape, in the
    order of the shape, and drops every other key; a key whose parsed
    value is [undefined] is set only when the input has the key.  An
    optional schema lets [undefined] through; a default replaces
    [undefined] before the inner schema is applied. *)
Fixpoint parse (s : schema) (v : jsval) : option jsval :=
  match s with
  | ZString =>
      match v with VStr _ => Some v | _ => None end
  | ZNumber min max =>
      match v with
      | VNum z => if within min max z then Some v else None
      | _ => None
      end
  | ZEnum values =>
      match v with
      | VStr x => if bool_decide (x ∈ values) then Some v else None
      | _ => None
      end
  | ZArray elem =>
      match v with
      | VArr items =>
          match mapM (parse elem) items with
          | Some parsed => Some (VArr parsed)
          | None => None
          end
      | _ => None
      end
  | ZObject shape =>
      match v with
      | VObj fields =>
          match
            (fix keys (shape : list (jstr * schema)) : option (list (jstr * jsval)) :=
               match shape with
               | [] => Some []
               | (k, s') :: shape' =>
                   let given := field k fields in
                   match parse s' (match given with Some x => x | None => VUndefined end) with
                   | None => None
                   | Some r =>
                       match keys shape' with
                       | None => None
                       | Some out =>
                           Some (if is_undefined r && negb (bool_decide (is_Some given))
                                 then out else (k, r) :: out)
                       end
                   end
               end) shape
          with
          | Some out => Some (VObj out)
          | None => None
          end
      | _ => None
      end
  | ZOptional inner =>
      match v with
      | VUndefined => Some VUndefined
      | _ => parse inner v
      end
  | ZDefault inner value =>
      match v with
      | VUndefined => parse inner value
      | _ => parse inner v
      end
  end.

(** The walk of an object schema over the keys of its shape. *)
Fixpoint parse_shape (shape : list (jstr * schema)) (fields : list (jstr * jsval))
  : option (list (jstr * jsval)) :=
  match shape with
  | [] => Some []
  | (k, s') :: shape' =>
      let given := field k fields in
      match parse s' (match given with Some x => x | None => VUndefined end) with
      | None => None
      | Some r =>
          match parse_shape shape' fields with
          | None => None
          | Some out =>
              Some (if is_undefined r && negb (bool_decide (is_Some given))
                    then out else (k, r) :: out)
          end
      end
  end.

End Zod.

(** The value [JSON.parse] gives for a document. *)
Fixpoint of_json (d : json) : jsval :=
  match d with
  | JNull => VNull
  | JStr s => VStr s
  | JNum z => VNum z
  | JArr items => VArr (map of_json items)
  | JObj members => VObj (map (fun kd => (fst kd, of_json (snd kd))) members)
  end.

Definition sizes : list jstr := [lit "1024x1024"; lit "1024x1792"; lit "1792x1024"].
Definition qualities : list jstr := [lit "standard"; lit "hd"].
Definition styles : list jstr := [lit "vivid"; lit "natural"].

(** [ImageGenerationRequestSchema] of [shared/imageGeneration]. *)
Definition ImageGenerationRequestSchema : Zod.schema :=
  Zod.ZObject
    [ (lit "prompt", Zod.ZString);
      (lit "size", Zod.ZDefault (Zod.ZOptional (Zod.ZEnum sizes)) (VStr (lit "1024x1024")));
      (lit "quality", Zod.ZDefault (Zod.ZOptional (Zod.ZEnum qualities)) (VStr (lit "standard")));
      (lit "style", Zod.ZDefault (Zod.ZOptional (Zod.ZEnum styles)) (VStr (lit "vivid")));
      (lit "n", Zod.ZDefault (Zod.ZOptional (Zod.ZNumber (Some 1%Z) (Some 10%Z))) (VNum 1)) ].

(** [ImageGenerationResponseSchema] of [shared/imageGeneration]. *)
Definition ImageGenerationResponseSchema : Zod.schema :=
  Zod.ZObject
    [ (lit "images",
       Zod.ZArray (Zod.ZObject [ (lit "url", Zod.ZString);
                                 (lit "revised_prompt", Zod.ZOptional Zod.ZString) ])) ].

(** [SaveImagesRequestSchema] of [shared/tools/saveImages]. *)
Definition SaveImagesRequestSchema : Zod.schema :=
  Zod.ZObject
    [ (lit "urls", Zod.ZArray Zod.ZString);
      (lit "prompt", Zod.ZString);
      (lit "revisedPrompts", Zod.ZOptional (Zod.ZArray Zod.ZString));
      (lit "outputDir", Zod.ZOptional Zod.ZString) ].

(** [SaveImagesResponseSchema] of [shared/tools/saveImages]. *)
Definition SaveImagesResponseSchema : Zod.schema :=
  Zod.ZObject
    [ (lit "saved_paths", Zod.ZArray Zod.ZString);
      (lit "message", Zod.ZString) ].

(** The parameter shapes [main] registers with the two tools, as object
    schemas. *)
Module Registered.

Definition image_generation : Zod.schema :=
  Zod.ZObject
    [ (lit "prompt", Zod.ZString);
      (lit "size", Zod.ZEnum sizes);
      (lit "quality", Zod.ZEnum qualities);
      (lit "style", Zod.ZEnum styles);
      (lit "n", Zod.ZNumber (Some 1%Z) (Some 10%Z)) ].

Definition save_generated_images : Zod.schema :=
  Zod.ZObject
    [ (lit "urls", Zod.ZArray Zod.ZString);
      (lit "prompt", Zod.ZString);
      (lit "revisedPrompts", Zod.ZOptional (Zod.ZArray Zod.ZString));
      (lit "outputDir", Zod.ZOptional Zod.ZString) ].

End Registered.

(** ** Arguments as the handlers read them *)

Definition Size_of (s : jstr) : option Size :=
  if bool_decide (s = lit "1024x1024") then Some S1024x1024
  else if bool_decide (s = lit "1024x1792") then Some S1024x1792
  else if bool_decide (s = lit "1792x1024") then Some S1792x1024
  else None.

Definition Quality_of (s : jstr) : option Quality :=
  if bool_decide (s = lit "standard") then Some standard
  else if bool_decide (s = lit "hd") then Some hd
  else None.

Definition Style_of (s : jstr) : option Style :=
  if bool_decide (s = lit "vivid") then Some vivid
  else if bool_decide (s = lit "natural") then Some natural
  else None.

Definition Size_text (s : Size) : jstr :=
  match s with
  | S1024x1024 => lit "1024x1024"
  | S1024x1792 => lit "1024x1792"
  | S1792x1024 => lit "1792x1024"
  end.

Definition Quality_text (q : Quality) : jstr :=
  match q with
  | standard => lit "standard"
  | hd => lit "hd"
  end.

Definition Style_text (s : Style) : jstr :=
  match s with
  | vivid => lit "vivid"
  | natural => lit "natural"
  end.

Definition string_field (key : jstr) (fields : list (jstr * jsval)) : option jstr :=
  match Zod.field key fields with
  | Some (VStr s) => Some s
  | _ => None
  end.

Definition strings (v : jsval) : option (list jstr) :=
  match v with
  | VArr items => mapM (fun x => match x with VStr s => Some s | _ => None end) items
  | _ => None
  end.

(** The parsed arguments of [image_generation] as [ImageGenerationParams]. *)
Definition as_generation_params (v : jsval) : option ImageGenerationParams.t :=
  match v with
  | VObj fields =>
      match string_field (lit "prompt") fields,
            string_field (lit "size") fields ≫= Size_of,
            string_field (lit "quality") fields ≫= Quality_of,
            string_field (lit "style") fields ≫= Style_of,
            Zod.field (lit "n") fields with
      | Some p, Some sz, Some q, Some st, Some (VNum n) =>
          Some {| ImageGenerationParams.prompt := p;
                  ImageGenerationParams.size := sz;
                  ImageGenerationParams.quality := q;
                  ImageGenerationParams.style := st;
                  ImageGenerationParams.n := n |}
      | _, _, _, _, _ => None
      end
  | _ => None
  end.

(** An optional property: absent or [undefined], or a value read by
    [read]. *)
Definition optional_of {A} (read : jsval -> option A) (o : option jsval) : option (option A) :=
  match o with
  | None | Some VUndefined => Some None
  | Some v => match read v with Some a => Some (Some a) | None => None end
  end.

Definition string_of (v : jsval) : option jstr :=
  match v with
  | VStr s => Some s
  | _ => None
  end.

(** The parsed arguments of [save_generated_images] as [SaveImagesParams]. *)
Definition as_save_params (v : jsval) : option SaveImagesParams.t :=
  match v with
  | VObj fields =>
      match Zod.field (lit "urls") fields ≫= strings,
            string_field (lit "prompt") fields,
            optional_of strings (Zod.field (lit "revisedPrompts") fields),
            optional_of string_of (Zod.field (lit "outputDir") fields) with
      | Some us, Some p, Some rps, Some d =>
          Some {| SaveImagesParams.urls := us;
                  SaveImagesParams.prompt := p;
                  SaveImagesParams.revisedPrompts := rps;
                  SaveImagesParams.outputDir := d |}
      | _, _, _, _ => None
      end
  | _ => None
  end.

(** A request object carrying the fields of the parameters. *)
Definition generation_args (params : ImageGenerationParams.t) : jsval :=
  VObj [ (lit "prompt", VStr (ImageGenerationParams.prompt params));
         (lit "size", VStr (Size_text (ImageGenerationParams.size params)));
         (lit "quality", VStr (Quality_text (ImageGenerationParams.quality params)));
         (lit "style", VStr (Style_text (ImageGenerationParams.style params)));
         (lit "n", VNum (ImageGenerationParams.n params)) ].

Definition save_args (params : SaveImagesParams.t) : jsval :=
  VObj ([ (lit "urls", VArr (map VStr (SaveImagesParams.urls params)));
          (lit "prompt", VStr (SaveImagesParams.prompt params)) ]
          ++ match SaveImagesParams.revisedPrompts params with
             | Some l => [(lit "revisedPrompts", VArr (map VStr l))]
             | None => []
             end
          ++ match SaveImagesParams.outputDir params with
             | Some d => [(lit "outputDir", VStr d)]
             | None => []
             end).


(** A property as a schema with a default sees it: the default when the
    key is absent or [undefined]. *)
Definition given (o : option jsval) (d : jsval) : jsval :=
  match o with
  | None | Some VUndefined => d
  | Some x => x
  end.

(** ** Interactions of the saving loop *)

(** [file] is a file directly inside [dir]: [dir] joined with a plain
    name. *)
Definition direct_child (dir file : jstr) : Prop :=
  exists name, Path.plain name /\ file = Path.join [dir; name].

(** What an interaction of the loop may be: a download, a clock
    reading, or a write to a file directly inside the target
    directory. *)
Definition loop_event (dir : jstr) (ev : Event) : Prop :=
  match ev with
  | EvFetch _ _ | EvNow _ => True
  | EvWriteFile file _ _ => direct_child dir file
  | EvMkdir _ _ | EvGenerate _ _ _ => False
  end.

(** A code unit of a portable file name: a lower-case letter, a digit,
    a hyphen or a dot. *)
Definition portable_unit (c : N) : bool :=
  Unit.is_lower c || Unit.is_digit c || (c =? Unit.hyphen) || (c =? Unit.dot).

Module DiskFull.

(** A file system that takes [quota] more writes and then refuses every
    write. *)
Definition env (quota : nat) : Env :=
  {| cwd := cwd Scenario.steady;
     OPENAI_API_KEY := OPENAI_API_KEY Scenario.steady;
     fs_mkdir := fs_mkdir Scenario.steady;
     fs_writeFile := fun tr _ _ =>
       if (length (written tr) <? quota)%nat then Return tt
       else Throw (ErrorObj (lit "ENOSPC: no space left on device, write"));
     net_fetch := net_fetch Scenario.steady;
     clock := clock Scenario.steady;
     images_generate := images_generate Scenario.steady |}.

End DiskFull.

Module Overloaded.

(** A provider that rejects every request with an [Error]. *)
Definition env : Env :=
  {| cwd := cwd Scenario.steady;
     OPENAI_API_KEY := OPENAI_API_KEY Scenario.steady;
     fs_mkdir := fs_mkdir Scenario.steady;
     fs_writeFile := fs_writeFile Scenario.steady;
     net_fetch := net_fetch Scenario.steady;
     clock := clock Scenario.steady;
     images_generate := fun _ _ _ => Throw (ErrorObj (lit "429 Rate limit exceeded")) |}.

End Overloaded.

(** * Properties *)

(** ** Examples of the derivations *)

Example filename_red_fox :
  filename (lit "A Red Fox!!") 1700000000000 1 = lit "a-red-fox---1700000000000-1.png".
Proof. vm_compute. reflexivity. Qed.

(** Code units outside ASCII, the Kelvin sign and the long s among
    them, are replaced like any other; a surrogate pair gives two
    hyphens. *)
Example safePrompt_beyond_ascii :
  safePrompt [233; 65; 8490; 383; 55357; 56832; 122] = lit "-a----z".
Proof. vm_compute. reflexivity. Qed.

Example safePrompt_truncates :
  safePrompt (lit "Hello, World! This is a very long prompt indeed")
  = lit "hello--world--this-is-a-very-l".
Proof. vm_compute. reflexivity. Qed.

Example Number_toString_samples :
  Number_toString 0 = lit "0" /\ Number_toString 1050 = lit "1050"
  /\ Number_toString (-5) = lit "-5".
Proof. vm_compute. auto. Qed.

Example join_tmp_out :
  Path.join [lit "/tmp/out"; lit "a.png"] = lit "/tmp/out/a.png".
Proof. vm_compute. reflexivity. Qed.

Example join_normalizes :
  Path.join [lit "/srv//app/./data/../"; lit "images"] = lit "/srv/app/images".
Proof. vm_compute. reflexivity. Qed.

Example join_relative :
  Path.join [lit "../out/"; lit "x.png"] = lit "../out/x.png".
Proof. vm_compute. reflexivity. Qed.

(** ** Character classes and the sanitised prompt *)

Lemma In_range_units lo hi a :
  In a (RegExp.range_units (lo, hi)) <-> lo <= a /\ a <= hi.
Proof.
  unfold RegExp.range_units; simpl. rewrite in_map_iff. split.
  - intros (k & <- & Hk). apply in_seq in Hk. lia.
  - intros [Hlo Hhi]. exists (N.to_nat (a - lo)). split; [lia|].
    apply in_seq. lia.
Qed.

Lemma In_members_unsafe a :
  In a (RegExp.members unsafe_class) <-> (97 <= a /\ a <= 122) \/ (48 <= a /\ a <= 57).
Proof.
  change (RegExp.members unsafe_class)
    with (RegExp.range_units (97, 122) ++ RegExp.range_units (48, 57) ++ []).
  rewrite app_nil_r, in_app_iff, !In_range_units. tauto.
Qed.

Ltac unit_cases :=
  unfold Spec.hyphenate, Spec.lower in *;
  unfold Spec.allowed, Unit.is_lower, Unit.is_upper, Unit.is_digit, Unit.hyphen in *;
  repeat match goal with
         | |- context [?a <=? ?b] => destruct (N.leb_spec a b)
         | H : context [?a <=? ?b] |- _ => destruct (N.leb_spec a b)
         end; simpl in *; try lia; try congruence.

(** The pattern [[^a-z0-9]] with the [i] flag matches exactly the code
    units outside a-z, A-Z and 0-9. *)
Lemma unsafe_class_matches c :
  RegExp.class_matches gi unsafe_class c = negb (Spec.allowed c).
Proof.
  unfold RegExp.class_matches. simpl RegExp.negated. rewrite xorb_true_l. f_equal.
  apply eq_true_iff_eq. rewrite existsb_exists. split.
  - intros (a & Ha & Heq). apply In_members_unsafe in Ha. apply N.eqb_eq in Heq.
    unfold RegExp.canonicalize in Heq; cbn [RegExp.ignoreCase gi] in Heq.
    revert Heq. unit_cases.
  - intros Hc. unfold RegExp.canonicalize; cbn [RegExp.ignoreCase gi].
    destruct (Unit.is_lower c) eqn:Hl.
    + exists c. rewrite In_members_unsafe, Hl, N.eqb_eq. split; [|reflexivity].
      revert Hl; unit_cases.
    + destruct (Unit.is_upper c) eqn:Hu.
      * exists (c + 32). rewrite In_members_unsafe, N.eqb_eq.
        revert Hu; unit_cases.
      * exists c. rewrite In_members_unsafe, Hl, N.eqb_eq. split; [|reflexivity].
        revert Hc Hl Hu; unit_cases.
Qed.

Lemma safePrompt_spec p :
  safePrompt p = map Spec.lower (map Spec.hyphenate (take 30 p)).
Proof.
  unfold safePrompt, toLowerCase, String_slice, RegExp.replace_all.
  rewrite drop_0. change (30 - 0)%nat with 30%nat.
  induction (take 30 p) as [|c l IH]; [reflexivity|].
  simpl. rewrite unsafe_class_matches. unfold Spec.hyphenate at 1, Spec.lower at 1.
  destruct (Spec.allowed c); simpl; rewrite IH; reflexivity.
Qed.


(** Every code unit of the sanitised prompt is a lower-case letter, a
    digit or a hyphen. *)
Lemma safePrompt_ascii p : Forall (fun c => safe_unit c = true) (safePrompt p).
Proof.
  rewrite safePrompt_spec. rewrite map_map.
  apply Forall_forall. intros c Hc. apply list_elem_of_In, in_map_iff in Hc.
  destruct Hc as (a & <- & _). unfold safe_unit.
  destruct (Spec.lower (Spec.hyphenate a) =? Unit.hyphen) eqn:E;
    [apply orb_true_r|]. apply N.eqb_neq in E. rewrite orb_false_r.
  revert E. unit_cases.
Qed.

Lemma safePrompt_length p : (length (safePrompt p) <= 30)%nat.
Proof. rewrite safePrompt_spec, !length_map, length_take. lia. Qed.

(** ** Decimal numerals *)

Lemma uint_units_digits d : Forall (fun c => Unit.is_digit c = true) (uint_units d).
Proof. induction d; simpl; constructor; auto. Qed.

Lemma uint_units_inj d1 d2 : uint_units d1 = uint_units d2 -> d1 = d2.
Proof.
  revert d2. induction d1; intros d2 H; destruct d2; simpl in H;
    try discriminate; try reflexivity;
    injection H as H; f_equal; auto.
Qed.

Lemma digit_not_hyphen c : Unit.is_digit c = true -> c <> Unit.hyphen.
Proof. unit_cases. Qed.

Lemma Number_toString_inj z1 z2 :
  Number_toString z1 = Number_toString z2 -> z1 = z2.
Proof.
  unfold Number_toString. intros H. apply DecimalZ.to_int_inj.
  destruct (Z.to_int z1) as [d1|d1], (Z.to_int z2) as [d2|d2].
  - f_equal. now apply uint_units_inj.
  - exfalso. destruct d1; simpl in H; try discriminate;
      injection H as H _; discriminate.
  - exfalso. destruct d2; simpl in H; try discriminate;
      injection H as H _; discriminate.
  - injection H as H. f_equal. now apply uint_units_inj.
Qed.

Lemma Number_toString_index_digits (i : nat) :
  Forall (fun c => Unit.is_digit c = true) (Number_toString (Z.of_nat i)).
Proof.
  unfold Number_toString.
  assert (exists d, Z.to_int (Z.of_nat i) = Decimal.Pos d) as [d ->].
  { destruct (Z.of_nat i) eqn:E; simpl; eauto. lia. }
  apply uint_units_digits.
Qed.

(** ** File names *)

Lemma app_sep_inv (x : N) (l1 r1 l2 r2 : jstr) :
  x ∉ r1 -> x ∉ r2 -> l1 ++ x :: r1 = l2 ++ x :: r2 -> l1 = l2 /\ r1 = r2.
Proof.
  intros H1 H2. revert l2. induction l1 as [|a l1 IH]; intros [|b l2] H; simpl in H.
  - injection H as ->. auto.
  - injection H as -> ->. exfalso. apply H1. set_solver.
  - injection H as <- <-. exfalso. apply H2. set_solver.
  - injection H as -> H. destruct (IH _ H) as [-> ->]. auto.
Qed.


Lemma filename_unfold p t i :
  filename p t i =
  safePrompt p ++ Unit.hyphen :: Number_toString t
    ++ Unit.hyphen :: Number_toString (Z.of_nat i) ++ extension.
Proof. reflexivity. Qed.

Lemma hyphen_not_in_index_ext (i : nat) :
  Unit.hyphen ∉ Number_toString (Z.of_nat i) ++ extension.
Proof.
  intros H. apply elem_of_app in H as [H|H].
  - pose proof (Number_toString_index_digits i) as Hd.
    rewrite Forall_forall in Hd. apply Hd in H. now apply digit_not_hyphen in H.
  - vm_compute in H. set_solver.
Qed.

(** A file name determines the timestamp and the index it was derived
    from. *)
Lemma filename_inj p t1 i1 t2 i2 :
  filename p t1 i1 = filename p t2 i2 -> t1 = t2 /\ i1 = i2.
Proof.
  rewrite !filename_unfold. intros H. apply app_inv_head in H.
  injection H as H.
  apply app_sep_inv in H as [Ht Hi]; try apply hyphen_not_in_index_ext.
  apply app_inv_tail in Hi. split.
  - now apply Number_toString_inj.
  - apply Number_toString_inj in Hi. lia.
Qed.

Lemma Number_toString_no_slash z : Unit.slash ∉ Number_toString z.
Proof.
  assert (Hd : forall d, Unit.slash ∉ uint_units d).
  { intros d H. pose proof (uint_units_digits d) as Hd.
    rewrite Forall_forall in Hd. apply Hd in H. revert H. unfold Unit.slash. unit_cases. }
  unfold Number_toString. destruct (Z.to_int z); [apply Hd|].
  intros H. apply elem_of_cons in H as [H|H]; [discriminate|]. now apply Hd in H.
Qed.

Lemma filename_plain p t i : Path.plain (filename p t i).
Proof.
  assert (Hh : Unit.hyphen ∈ filename p t i).
  { rewrite filename_unfold. set_solver. }
  split; [|repeat split; intros E; rewrite E in Hh; vm_compute in Hh; set_solver].
  rewrite filename_unfold. intros H.
  apply elem_of_app in H as [H|H].
  { pose proof (safePrompt_ascii p) as Hs. rewrite Forall_forall in Hs.
    apply Hs in H. revert H. unfold safe_unit, Unit.slash. unit_cases. }
  apply elem_of_cons in H as [H|H]; [discriminate|].
  apply elem_of_app in H as [H|H]; [now apply Number_toString_no_slash in H|].
  apply elem_of_cons in H as [H|H]; [discriminate|].
  apply elem_of_app in H as [H|H]; [now apply Number_toString_no_slash in H|].
  vm_compute in H. set_solver.
Qed.

(** ** Joining a directory and a plain file name *)

Lemma split_nonempty s : Path.split s <> [].
Proof.
  destruct s as [|c s]; simpl; [discriminate|].
  destruct (c =? Unit.slash); [discriminate|].
  destruct (Path.split s); discriminate.
Qed.

Lemma split_no_slash name : Unit.slash ∉ name -> Path.split name = [name].
Proof.
  induction name as [|c name IH]; intros H; [reflexivity|]. simpl.
  destruct (N.eqb_spec c Unit.slash) as [->|Hc]; [exfalso; apply H; set_solver|].
  rewrite IH; [reflexivity|]. set_solver.
Qed.

Lemma split_app_slash a b :
  Path.split (a ++ Unit.slash :: b) = Path.split a ++ Path.split b.
Proof.
  induction a as [|c a IH]; [reflexivity|]. simpl.
  destruct (c =? Unit.slash); [now rewrite IH|]. rewrite IH.
  pose proof (split_nonempty a). destruct (Path.split a); [congruence|reflexivity].
Qed.

Lemma intercalate_snoc segs name :
  Path.intercalate (segs ++ [name]) =
  concat (map (fun seg => seg ++ [Unit.slash]) segs) ++ name.
Proof.
  induction segs as [|x segs IH]; [reflexivity|].
  destruct segs as [|y segs].
  - simpl. now rewrite app_nil_r, <- app_assoc.
  - change (Path.intercalate ((x :: y :: segs) ++ [name]))
      with (x ++ Unit.slash :: Path.intercalate ((y :: segs) ++ [name])).
    rewrite IH. simpl. now rewrite <- !app_assoc.
Qed.

Lemma step_plain allow stack name :
  Path.plain name -> Path.step allow stack name = name :: stack.
Proof.
  intros (_ & H1 & H2 & H3). unfold Path.step, Path.seg_eqb.
  rewrite !bool_decide_eq_false_2 by assumption. reflexivity.
Qed.

Lemma last_plain_not_slash pre name :
  Path.plain name -> Path.ends_with_slash (pre ++ name) = false.
Proof.
  intros (Hs & Hne & _). unfold Path.ends_with_slash.
  destruct name as [|c name _] using rev_ind; [congruence|].
  rewrite app_assoc, last_snoc. apply N.eqb_neq. intros ->. apply Hs. set_solver.
Qed.

Lemma normalizeString_dir_name d name allow :
  Path.plain name ->
  Path.normalizeString (d ++ Unit.slash :: name) allow =
  concat (map (fun seg => seg ++ [Unit.slash])
              (rev (fold_left (Path.step allow) (Path.split d) []))) ++ name.
Proof.
  intros Hp. unfold Path.normalizeString.
  rewrite split_app_slash, (split_no_slash name) by apply Hp.
  rewrite fold_left_app. simpl fold_left at 1. rewrite step_plain by assumption.
  simpl rev. apply intercalate_snoc.
Qed.

Lemma ends_with_slash_dir_name d name :
  Path.plain name -> Path.ends_with_slash (d ++ Unit.slash :: name) = false.
Proof.
  intros Hp. change (d ++ Unit.slash :: name) with (d ++ [Unit.slash] ++ name).
  rewrite app_assoc. now apply last_plain_not_slash.
Qed.

Lemma normalize_dir_name c dir name :
  Path.plain name ->
  Path.normalize ((c :: dir) ++ Unit.slash :: name) = Path.dir_prefix (c :: dir) ++ name.
Proof.
  intros Hp. unfold Path.normalize, Path.dir_prefix.
  change ((c :: dir) ++ Unit.slash :: name) with (c :: (dir ++ Unit.slash :: name)).
  cbv beta iota zeta.
  change (c :: (dir ++ Unit.slash :: name)) with ((c :: dir) ++ Unit.slash :: name).
  rewrite normalizeString_dir_name, ends_with_slash_dir_name by assumption.
  set (pre := concat _).
  destruct (pre ++ name) eqn:E.
  { apply app_eq_nil in E as [_ E]. destruct Hp as (_ & Hne & _). congruence. }
  rewrite <- E. destruct (c =? Unit.slash); reflexivity.
Qed.

(** Joining a non-empty directory with a plain file name normalises the
    directory and appends the name unchanged. *)
Lemma join_plain dir name :
  dir <> [] -> Path.plain name ->
  Path.join [dir; name] = Path.dir_prefix dir ++ name.
Proof.
  intros Hdir Hp. destruct dir as [|c dir]; [congruence|].
  assert (Hf : List.filter Path.nonempty [c :: dir; name] = [c :: dir; name]).
  { destruct name; [|reflexivity]. destruct Hp as (_ & Hne & _). congruence. }
  unfold Path.join. rewrite Hf. cbv beta iota.
  change (Path.intercalate [c :: dir; name]) with ((c :: dir) ++ Unit.slash :: name).
  now apply normalize_dir_name.
Qed.

Example dir_prefix_tmp_out : Path.dir_prefix (lit "/tmp/out") = lit "/tmp/out/".
Proof. vm_compute. reflexivity. Qed.

Lemma normalize_nonempty p : Path.normalize p <> [].
Proof.
  unfold Path.normalize. destruct p as [|c p]; [discriminate|]. cbv zeta.
  destruct (Path.normalizeString _ _) as [|b body].
  - destruct (c =? Unit.slash); [discriminate|].
    destruct (Path.ends_with_slash _); discriminate.
  - destruct (c =? Unit.slash); [discriminate|].
    destruct (Path.ends_with_slash _); discriminate.
Qed.

Lemma join_nonempty args : Path.join args <> [].
Proof.
  unfold Path.join. destruct (List.filter _ _); [discriminate|].
  apply normalize_nonempty.
Qed.

(** ** Events and writes of a batch *)

Section BatchEvents.

Variables (targetDir prompt : jstr) (revisedPrompts : list (option jstr)).



Lemma batch_paths_length i items : length (batch_paths targetDir prompt i items) = length items.
Proof. revert i; induction items; intros; simpl; auto. Qed.

Lemma batch_paths_lookup i items k it :
  items !! k = Some it -> batch_paths targetDir prompt i items !! k = Some (image_path targetDir prompt (i + k) it).
Proof.
  revert i k. induction items as [|a items IH]; intros i [|k] H; simpl in *;
    try discriminate.
  - injection H as ->. now rewrite Nat.add_0_r.
  - rewrite (IH (S i) k H). do 2 f_equal. lia.
Qed.

Lemma batch_events_app i items1 items2 :
  batch_events targetDir prompt revisedPrompts i (items1 ++ items2) =
  batch_events targetDir prompt revisedPrompts i items1 ++ batch_events targetDir prompt revisedPrompts (i + length items1) items2.
Proof.
  revert i. induction items1 as [|a items1 IH]; intros i; simpl.
  - now rewrite Nat.add_0_r.
  - rewrite IH. replace (S i + length items1)%nat with (i + S (length items1))%nat by lia.
    reflexivity.
Qed.

Lemma written_app tr1 tr2 : written (tr1 ++ tr2) = written tr1 ++ written tr2.
Proof. unfold written. apply omap_app. Qed.

Lemma written_batch_events i items :
  written (batch_events targetDir prompt revisedPrompts i items) = batch_writes targetDir prompt revisedPrompts i items.
Proof.
  revert i. induction items as [|a items IH]; intros i; [reflexivity|].
  change (batch_events targetDir prompt revisedPrompts i (a :: items))
    with (item_events targetDir prompt revisedPrompts i a ++ batch_events targetDir prompt revisedPrompts (S i) items).
  rewrite written_app, IH. reflexivity.
Qed.

Lemma batch_events_quiet i items :
  Forall (fun ev => thrown_by ev = None) (batch_events targetDir prompt revisedPrompts i items).
Proof.
  revert i. induction items as [|a items IH]; intros i; simpl; repeat constructor.
  apply IH.
Qed.

Lemma downloads_app tr1 tr2 : downloads (tr1 ++ tr2) = downloads tr1 ++ downloads tr2.
Proof. unfold downloads. apply omap_app. Qed.

Lemma downloads_batch_events i items :
  downloads (batch_events targetDir prompt revisedPrompts i items) = map sv_url items.
Proof.
  revert i. induction items as [|a items IH]; intros i; [reflexivity|].
  change (batch_events targetDir prompt revisedPrompts i (a :: items))
    with (item_events targetDir prompt revisedPrompts i a ++ batch_events targetDir prompt revisedPrompts (S i) items).
  rewrite downloads_app, IH. reflexivity.
Qed.

End BatchEvents.

(** ** One pass of the loop *)

Section Loop.

Variables (env : Env) (targetDir prompt : jstr) (revisedPrompts : list (option jstr)).


Lemma save_one_answered tr i it :
  answered_item env targetDir prompt revisedPrompts tr i it ->
  Server.save_one env targetDir prompt revisedPrompts i (sv_url it) tr =
  (Return (image_path targetDir prompt i it),
   tr ++ item_events targetDir prompt revisedPrompts i it).
Proof.
  intros (Hf & Hc & Hw1 & Hw2).
  unfold Server.save_one, bind, fetch, await, Date_now, writeFile, ret.
  rewrite Hf. cbn [arrayBuffer]. rewrite Hc.
  unfold image_path in Hw1. rewrite <- !app_assoc. cbn [app].
  rewrite Hw1.
  unfold sidecar_path, sidecar_data, sidecar_fields, image_path in Hw2.
  rewrite <- ?app_assoc. cbn [app]. rewrite Hw2.
  rewrite <- ?app_assoc. reflexivity.
Qed.

Lemma save_one_returns tr i u p tr' :
  Server.save_one env targetDir prompt revisedPrompts i u tr = (Return p, tr') ->
  exists it, sv_url it = u /\ p = image_path targetDir prompt i it
             /\ tr' = tr ++ item_events targetDir prompt revisedPrompts i it
             /\ answered_item env targetDir prompt revisedPrompts tr i it.
Proof.
  unfold Server.save_one, bind, fetch, await, Date_now, writeFile, ret.
  destruct (net_fetch env tr u) as [[st [bytes|e]]|e] eqn:Hf; cbn [arrayBuffer];
    try discriminate.
  set (t := clock env _).
  destruct (fs_writeFile env _ _ (Binary bytes)) as [[]|e] eqn:Hw1; try discriminate.
  destruct (fs_writeFile env _ _ (Utf8 _)) as [[]|e] eqn:Hw2; try discriminate.
  intros H. injection H as <- <-.
  exists {| sv_url := u; sv_status := st; sv_bytes := bytes; sv_timestamp := t |}.
  rewrite <- !app_assoc in *. cbn [app] in *.
  unfold answered_item, item_events, image_path, sidecar_path, sidecar_data,
    sidecar_fields. cbn [sv_url sv_status sv_bytes sv_timestamp].
  repeat split; try assumption; reflexivity.
Qed.


Lemma save_one_download_fails tr i u e :
  download_fails (net_fetch env tr u) e ->
  Server.save_one env targetDir prompt revisedPrompts i u tr = (Throw e, tr ++ [EvFetch u (net_fetch env tr u)]).
Proof.
  unfold Server.save_one, bind, fetch, await.
  intros [H|[st H]]; rewrite H; reflexivity.
Qed.

(** Whatever a pass throws was thrown by its last interaction, a
    download or a write, after interactions that all succeeded. *)
Lemma save_one_throws tr i u e tr' :
  Server.save_one env targetDir prompt revisedPrompts i u tr = (Throw e, tr') ->
  exists pre ev, tr' = tr ++ pre ++ [ev] /\ thrown_by ev = Some e
                 /\ Forall (fun ev => thrown_by ev = None) pre
                 /\ is_mkdir ev = false.
Proof.
  unfold Server.save_one, bind, fetch, await, Date_now, writeFile, ret.
  destruct (net_fetch env tr u) as [[st [bytes|e0]]|e0] eqn:Hf; cbn [arrayBuffer].
  - set (t := clock env _).
    destruct (fs_writeFile env _ _ (Binary bytes)) as [[]|e1] eqn:Hw1.
    + destruct (fs_writeFile env _ _ (Utf8 _)) as [[]|e2] eqn:Hw2; [discriminate|].
      intros H; injection H as <- <-. rewrite <- !app_assoc. cbn [app].
      eexists [_; _; _], _. split; [reflexivity|]. split; [reflexivity|].
      split; [|reflexivity]. repeat constructor.
    + intros H; injection H as <- <-. rewrite <- !app_assoc. cbn [app].
      eexists [_; _], _. split; [reflexivity|]. split; [reflexivity|].
      split; [|reflexivity]. repeat constructor.
  - intros H; injection H as <- <-.
    exists [], (EvFetch u (Return {| status := st; arrayBuffer := Throw e0 |})).
    repeat split. constructor.
  - intros H; injection H as <- <-. exists [], (EvFetch u (Throw e0)).
    repeat split. constructor.
Qed.

Lemma save_loop_app i l1 l2 acc tr :
  Server.save_loop env targetDir prompt revisedPrompts i (l1 ++ l2) acc tr =
  match Server.save_loop env targetDir prompt revisedPrompts i l1 acc tr with
  | (Return ps, tr') => Server.save_loop env targetDir prompt revisedPrompts (i + length l1) l2 ps tr'
  | (Throw e, tr') => (Throw e, tr')
  end.
Proof.
  revert i acc tr. induction l1 as [|u l1 IH]; intros i acc tr.
  - simpl. unfold ret. now rewrite Nat.add_0_r.
  - cbn [Server.save_loop app length]. unfold bind.
    destruct (Server.save_one _ _ _ _ _ _ _) as [[p|e] tr1]; [|reflexivity].
    rewrite IH. replace (S i + length l1)%nat with (i + S (length l1))%nat by lia.
    reflexivity.
Qed.

Lemma save_loop_answered items : forall i acc tr,
  answered env targetDir prompt revisedPrompts tr i items ->
  Server.save_loop env targetDir prompt revisedPrompts i (map sv_url items) acc tr =
  (Return (acc ++ batch_paths targetDir prompt i items),
   tr ++ batch_events targetDir prompt revisedPrompts i items).
Proof.
  induction items as [|it items IH]; intros i acc tr H.
  - simpl. unfold ret. now rewrite !app_nil_r.
  - destruct H as [Hit Hrest]. simpl map. simpl Server.save_loop.
    unfold bind at 1. rewrite (save_one_answered _ _ _ Hit).
    rewrite (IH _ _ _ Hrest).
    change (batch_paths targetDir prompt i (it :: items))
      with ([image_path targetDir prompt i it] ++ batch_paths targetDir prompt (S i) items).
    change (batch_events targetDir prompt revisedPrompts i (it :: items))
      with (item_events targetDir prompt revisedPrompts i it
              ++ batch_events targetDir prompt revisedPrompts (S i) items).
    now rewrite !app_assoc.
Qed.

Lemma save_loop_returns rest : forall i acc tr ps tr',
  Server.save_loop env targetDir prompt revisedPrompts i rest acc tr = (Return ps, tr') ->
  exists items, map sv_url items = rest
                /\ ps = acc ++ batch_paths targetDir prompt i items
                /\ tr' = tr ++ batch_events targetDir prompt revisedPrompts i items
                /\ answered env targetDir prompt revisedPrompts tr i items.
Proof.
  induction rest as [|u rest IH]; intros i acc tr ps tr' H.
  - injection H as <- <-. exists []. simpl. now rewrite !app_nil_r.
  - simpl in H. unfold bind at 1 in H.
    destruct (Server.save_one env targetDir prompt revisedPrompts i u tr) as [[p|e] tr1] eqn:H1; [|discriminate].
    apply save_one_returns in H1 as (it & Hu & -> & -> & Hit).
    apply IH in H as (items & Hus & -> & -> & Hrest).
    exists (it :: items). subst u rest. simpl. rewrite <- !app_assoc.
    do 3 (split; [reflexivity|]). split; assumption.
Qed.

(** A throwing loop processed some items in full, and the pass for the
    next URL threw. *)
Lemma save_loop_throws rest : forall i acc tr e tr',
  Server.save_loop env targetDir prompt revisedPrompts i rest acc tr = (Throw e, tr') ->
  exists items u,
    rest !! length items = Some u
    /\ map sv_url items = take (length items) rest
    /\ answered env targetDir prompt revisedPrompts tr i items
    /\ Server.save_one env targetDir prompt revisedPrompts (i + length items) u
         (tr ++ batch_events targetDir prompt revisedPrompts i items) = (Throw e, tr').
Proof.
  induction rest as [|u rest IH]; intros i acc tr e tr' H; [discriminate|].
  simpl in H. unfold bind at 1 in H.
  destruct (Server.save_one env targetDir prompt revisedPrompts i u tr) as [[p|e1] tr1] eqn:H1.
  - apply save_one_returns in H1 as (it & Hu & -> & -> & Hit).
    apply IH in H as (items & u' & Hl & Hus & Hrest & Hone).
    exists (it :: items), u'. subst u. simpl. rewrite Hus, <- ?app_assoc.
    replace (i + S (length items))%nat with (S i + length items)%nat by lia.
    split; [assumption|]. split; [reflexivity|]. split; [split; assumption|].
    rewrite <- app_assoc in Hone. exact Hone.
  - injection H as <- <-. exists [], u. simpl.
    now rewrite Nat.add_0_r, app_nil_r.
Qed.


(** When every download of [rest] and every write succeeds, the loop
    has answers for all of [rest]. *)
Lemma answered_total rest : forall i tr,
  downloads_succeed env rest -> writes_succeed env ->
  exists items, map sv_url items = rest /\ answered env targetDir prompt revisedPrompts tr i items.
Proof.
  induction rest as [|u rest IH]; intros i tr Hd Hw.
  - exists []. simpl. auto.
  - destruct (Hd tr u) as (st & bytes & Hf); [set_solver|].
    set (it := {| sv_url := u; sv_status := st; sv_bytes := bytes;
                  sv_timestamp := clock env (tr ++ [EvFetch u (Return {| status := st; arrayBuffer := Return bytes |})]) |}).
    destruct (IH (S i) (tr ++ item_events targetDir prompt revisedPrompts i it))
      as (items & Hus & Hrest); [intros tr0 u0 Hu0; apply Hd; set_solver|assumption|].
    exists (it :: items). simpl. rewrite Hus. split; [reflexivity|].
    split; [|assumption]. unfold answered_item. cbn [sv_url sv_status sv_bytes sv_timestamp it].
    repeat split; try apply Hw. assumption.
Qed.

End Loop.

(** ** Paths of a batch are distinct *)

Section BatchPaths.

Variables (targetDir prompt : jstr) (revisedPrompts : list (option jstr)).
Hypothesis targetDir_nonempty : targetDir <> [].

Lemma image_path_eq i it :
  image_path targetDir prompt i it =
  Path.dir_prefix targetDir ++ filename prompt (sv_timestamp it) i.
Proof. apply join_plain; [assumption|apply filename_plain]. Qed.

Lemma filename_last p t i : last (filename p t i) = Some 103.
Proof.
  rewrite filename_unfold.
  change extension with ([46; 112; 110] ++ [103]).
  rewrite !app_comm_cons, !app_assoc. apply last_snoc.
Qed.

Lemma image_path_inj i it j it' :
  image_path targetDir prompt i it = image_path targetDir prompt j it' -> i = j.
Proof.
  rewrite !image_path_eq. intros H. apply app_inv_head in H.
  now apply filename_inj in H.
Qed.

Lemma sidecar_path_inj i it j it' :
  sidecar_path targetDir prompt i it = sidecar_path targetDir prompt j it' -> i = j.
Proof.
  unfold sidecar_path. intros H. apply app_inv_tail in H.
  now apply image_path_inj in H.
Qed.

Lemma image_path_not_sidecar i it j it' :
  image_path targetDir prompt i it <> sidecar_path targetDir prompt j it'.
Proof.
  unfold sidecar_path. rewrite !image_path_eq, <- app_assoc. intros H.
  apply app_inv_head in H. apply (f_equal last) in H.
  rewrite filename_last in H.
  change (lit ".json") with ([46; 106; 115; 111] ++ [110]) in H.
  rewrite app_assoc, last_snoc in H. discriminate.
Qed.

Lemma batch_writes_keys i items key :
  key ∈ map fst (batch_writes targetDir prompt revisedPrompts i items) ->
  exists j it, (i <= j)%nat
               /\ (key = image_path targetDir prompt j it
                   \/ key = sidecar_path targetDir prompt j it).
Proof.
  clear targetDir_nonempty.
  revert i. induction items as [|a items IH]; intros i H; simpl in H.
  - set_solver.
  - apply elem_of_cons in H as [->|H]; [exists i, a; auto|].
    apply elem_of_cons in H as [->|H]; [exists i, a; auto|].
    apply IH in H as (j & it & Hj & H). exists j, it. split; [lia|assumption].
Qed.

(** No two writes of a batch go to the same file. *)
Lemma batch_writes_NoDup i items :
  NoDup (map fst (batch_writes targetDir prompt revisedPrompts i items)).
Proof.
  revert i. induction items as [|a items IH]; intros i; simpl; [constructor|].
  apply NoDup_cons. split.
  - intros H. apply elem_of_cons in H as [H|H];
      [now apply image_path_not_sidecar in H|].
    apply batch_writes_keys in H as (j & it & Hj & [H|H]).
    + apply image_path_inj in H. lia.
    + now apply image_path_not_sidecar in H.
  - apply NoDup_cons. split; [|apply IH].
    intros H. apply batch_writes_keys in H as (j & it & Hj & [H|H]).
    + symmetry in H. now apply image_path_not_sidecar in H.
    + apply sidecar_path_inj in H. lia.
Qed.

Lemma batch_writes_length i items :
  length (batch_writes targetDir prompt revisedPrompts i items) = (2 * length items)%nat.
Proof.
  clear targetDir_nonempty.
  revert i. induction items as [|a items IH]; intros i; simpl; [|rewrite IH]; lia.
Qed.

Lemma batch_writes_lookup i items k it :
  items !! k = Some it ->
  (image_path targetDir prompt (i + k) it, Binary (sv_bytes it))
    ∈ batch_writes targetDir prompt revisedPrompts i items
  /\ (sidecar_path targetDir prompt (i + k) it,
      sidecar_data prompt revisedPrompts (i + k) it)
    ∈ batch_writes targetDir prompt revisedPrompts i items.
Proof.
  clear targetDir_nonempty.
  revert i k. induction items as [|a items IH]; intros i [|k] H; simpl in H;
    try discriminate.
  - injection H as ->. rewrite Nat.add_0_r. simpl. split; set_solver.
  - destruct (IH (S i) k H) as [H1 H2].
    replace (i + S k)%nat with (S i + k)%nat by lia. simpl. split; set_solver.
Qed.

(** The saved paths of a batch are pairwise distinct. *)
Lemma batch_paths_NoDup i items : NoDup (batch_paths targetDir prompt i items).
Proof.
  revert i. induction items as [|a items IH]; intros i; simpl; [constructor|].
  apply NoDup_cons. split; [|apply IH]. intros H.
  apply list_elem_of_lookup in H as [k H].
  destruct (items !! k) as [it|] eqn:E.
  - rewrite (batch_paths_lookup _ _ _ _ _ _ E) in H. injection H as H.
    apply image_path_inj in H. lia.
  - apply lookup_ge_None in E. apply lookup_lt_Some in H.
    rewrite batch_paths_length in H. lia.
Qed.

End BatchPaths.

(** ** The disk after a history *)

Lemma disk_app tr evs : disk (tr ++ evs) = fold_left apply_event evs (disk tr).
Proof. unfold disk. apply fold_left_app. Qed.

Lemma apply_events_other evs : forall (d : gmap jstr FileData) key,
  key ∉ map fst (written evs) -> fold_left apply_event evs d !! key = d !! key.
Proof.
  induction evs as [|ev evs IH]; intros d key H; [reflexivity|]. simpl.
  destruct ev as [| | |file data [[]|e]|]; simpl in *; try (now apply IH).
  rewrite IH by set_solver. apply lookup_insert_ne. set_solver.
Qed.

Lemma apply_events_written evs : forall (d : gmap jstr FileData) key data,
  NoDup (map fst (written evs)) -> (key, data) ∈ written evs ->
  fold_left apply_event evs d !! key = Some data.
Proof.
  induction evs as [|ev evs IH]; intros d key data Hn H; [set_solver|]. simpl.
  destruct ev as [| | |file data' [[]|e]|]; simpl in *; try (now apply IH).
  apply NoDup_cons in Hn as [Hfile Hn].
  apply elem_of_cons in H as [H|H].
  - injection H as -> ->. rewrite apply_events_other by assumption.
    apply lookup_insert_eq.
  - now apply IH.
Qed.

(** ** The two operations, one step at a time *)


Lemma target_dir_nonempty env outputDir : target_dir env outputDir <> [].
Proof.
  unfold target_dir, or_else. destruct outputDir as [[|c s]|];
    try discriminate; apply join_nonempty.
Qed.

Lemma saveGeneratedImages_eq env urls rps prompt outputDir tr :
  Server.saveGeneratedImages env urls rps prompt outputDir tr =
  let dir := target_dir env outputDir in
  match fs_mkdir env tr dir with
  | Return _ =>
      Server.save_loop env dir prompt rps 0 urls [] (tr ++ [EvMkdir dir (fs_mkdir env tr dir)])
  | Throw e =>
      (Throw (ErrorObj (lit "Failed to create directory: " ++ Server.message_of e)),
       tr ++ [EvMkdir dir (Throw e)])
  end.
Proof.
  unfold Server.saveGeneratedImages, bind, try_catch, mkdir, throw. fold (target_dir env outputDir).
  cbv zeta. destruct (fs_mkdir env tr _); reflexivity.
Qed.


Lemma serialize_strings (l : list jstr) :
  map (fun x => match serialize x with Some d => d | None => JNull end) (map VStr l)
  = map JStr l.
Proof. rewrite map_map. reflexivity. Qed.

Lemma saved_result_paths params paths :
  result_member (lit "saved_paths") (Server.saved_result params paths)
  = Some (JArr (map JStr paths)).
Proof.
  unfold result_member, result_document, Server.saved_result, JSON_stringify.
  cbn [content serialize_fields omap list_omap serialize fst snd member assoc].
  rewrite serialize_strings. rewrite bool_decide_eq_true_2 by reflexivity. reflexivity.
Qed.

Lemma saved_result_message params paths :
  result_member (lit "message") (Server.saved_result params paths)
  = Some (JStr (lit "Successfully saved "
                  ++ Number_toString (Z.of_nat (length paths))
                  ++ lit " images to "
                  ++ or_else (SaveImagesParams.outputDir params) (lit "images")
                  ++ lit " directory")).
Proof.
  unfold result_member, result_document, Server.saved_result, JSON_stringify.
  cbn [content serialize_fields omap list_omap serialize fst snd member assoc].
  rewrite bool_decide_eq_false_2 by (vm_compute; discriminate).
  rewrite bool_decide_eq_true_2 by reflexivity. reflexivity.
Qed.


(** * Saving a batch *)

(** C1 as stated fails: every download and every write may succeed and
    still nothing is saved, when the target directory cannot be created.
    The call then ends in an error result before the first download. *)
Lemma nothing_saved_without_directory :
  SaveImagesParams.revisedPrompts Scenario.red_fox = None
  /\ downloads_succeed ReadOnly.env (SaveImagesParams.urls Scenario.red_fox)
  /\ writes_succeed ReadOnly.env
  /\ exists result tr',
       Server.saveImages ReadOnly.env Scenario.red_fox [] = (Return result, tr')
       /\ isError result = Some true
       /\ result_member (lit "saved_paths") result = None
       /\ downloads tr' = []
       /\ written tr' = [].
Proof.
  split; [reflexivity|]. split; [|split].
  - intros tr u _. eexists _, _. reflexivity.
  - intros tr file data. reflexivity.
  - eexists _, _. split; [vm_compute; reflexivity|]. repeat split.
Qed.

(** C1, as the code has it.  For a save request with [k] URLs and no
    [revisedPrompts], when the target directory can be created and every
    download and write succeeds,
    [saveImages] writes [k] image files and [k] sidecar files, all at
    different paths, and returns a success result whose [saved_paths]
    holds, in input order, the [k] paths of the image files: entry [i]
    is the path of the image written for [urls[i]], and no entry is the
    path of a sidecar. *)
Theorem save_all_images env params tr :
  let urls := SaveImagesParams.urls params in
  let prompt := SaveImagesParams.prompt params in
  let dir := target_dir env (SaveImagesParams.outputDir params) in
  let rps := map (fun _ => None) urls in
  SaveImagesParams.revisedPrompts params = None ->
  fs_mkdir env tr dir = Return tt ->
  downloads_succeed env urls ->
  writes_succeed env ->
  exists items result tr',
    Server.saveImages env params tr = (Return result, tr')
    /\ isError result = None
    /\ map sv_url items = urls
    /\ result_member (lit "saved_paths") result
       = Some (JArr (map JStr (batch_paths dir prompt 0 items)))
    /\ length (batch_paths dir prompt 0 items) = length urls
    /\ written tr' = written tr ++ batch_writes dir prompt rps 0 items
    /\ length (batch_writes dir prompt rps 0 items) = (2 * length urls)%nat
    /\ NoDup (map fst (batch_writes dir prompt rps 0 items))
    /\ forall i it, items !! i = Some it ->
         urls !! i = Some (sv_url it)
         /\ batch_paths dir prompt 0 items !! i = Some (image_path dir prompt i it)
         /\ (forall j it', image_path dir prompt i it <> sidecar_path dir prompt j it')
         /\ disk tr' !! image_path dir prompt i it = Some (Binary (sv_bytes it))
         /\ disk tr' !! sidecar_path dir prompt i it
            = Some (sidecar_data prompt rps i it).
Proof.
  intros urls prompt dir rps Hrp Hmk Hd Hw.
  pose proof (target_dir_nonempty env (SaveImagesParams.outputDir params)) as Hdir.
  fold dir in Hdir.
  destruct (answered_total env dir prompt rps urls 0 (tr ++ [EvMkdir dir (Return tt)]) Hd Hw)
    as (items & Hus & Hans).
  exists items, (Server.saved_result params (batch_paths dir prompt 0 items)),
    ((tr ++ [EvMkdir dir (Return tt)]) ++ batch_events dir prompt rps 0 items).
  assert (Hlen : length items = length urls) by (rewrite <- Hus; now rewrite length_map).
  assert (Hwr : written ((tr ++ [EvMkdir dir (Return tt)]) ++ batch_events dir prompt rps 0 items)
                = written tr ++ batch_writes dir prompt rps 0 items).
  { rewrite !written_app, written_batch_events. simpl. now rewrite app_nil_r. }
  split.
  { unfold Server.saveImages, try_catch, bind.
    rewrite saveGeneratedImages_eq. cbv zeta. fold dir.
    unfold Server.revisedPrompts_or_default. rewrite Hrp. fold urls rps prompt.
    rewrite Hmk, <- Hus. rewrite (save_loop_answered _ _ _ _ _ _ _ _ Hans). reflexivity. }
  split; [reflexivity|]. split; [assumption|].
  split; [apply saved_result_paths|].
  split; [now rewrite batch_paths_length|].
  split; [assumption|].
  split; [rewrite batch_writes_length; lia|].
  split; [now apply batch_writes_NoDup|].
  intros i it Hi.
  split; [rewrite <- Hus, list_lookup_fmap, Hi; reflexivity|].
  split; [apply (batch_paths_lookup dir prompt 0 items i it Hi)|].
  split; [intros j it'; now apply image_path_not_sidecar|].
  destruct (batch_writes_lookup dir prompt rps 0 items i it Hi) as [H1 H2].
  rewrite disk_app, disk_app.
  split; apply apply_events_written;
    rewrite ?written_batch_events; try assumption; now apply batch_writes_NoDup.
Qed.

Lemma save_all_images_witness :
  exists result tr',
    Server.saveImages Scenario.steady Scenario.red_fox [] = (Return result, tr')
    /\ isError result = None /\ length (written tr') = 4%nat.
Proof.
  destruct (save_all_images Scenario.steady Scenario.red_fox [])
    as (items & result & tr' & Hrun & Herr & _ & _ & _ & Hwr & Hlen & _).
  - reflexivity.
  - reflexivity.
  - intros tr u _. eexists _, _. reflexivity.
  - intros tr file data. reflexivity.
  - exists result, tr'. rewrite Hwr, length_app, Hlen. auto.
Defined.

(** * Failures at the boundary of an operation *)


Lemma saveImages_boundary env params tr :
  Boundary (lit "Failed to save images: ") tr (Server.saveImages env params tr).
Proof.
  unfold Server.saveImages, try_catch, bind. rewrite saveGeneratedImages_eq. cbv zeta.
  set (dir := target_dir env _). set (rps := Server.revisedPrompts_or_default params).
  destruct (fs_mkdir env tr dir) as [[]|e0] eqn:Hmk.
  - destruct (Server.save_loop _ _ _ _ _ _ _ _) as [[ps|e] tr'] eqn:Hloop.
    + apply save_loop_returns in Hloop as (items & _ & _ & -> & _).
      rewrite <- app_assoc. apply boundary_success; [reflexivity|].
      apply Forall_app. split; [repeat constructor|apply batch_events_quiet].
    + apply save_loop_throws in Hloop as (items & u & _ & _ & _ & Hone).
      apply save_one_throws in Hone as (pre & ev & -> & Hev & Hpre & Hmkd).
      replace (((tr ++ [EvMkdir dir (Return tt)])
                  ++ batch_events dir (SaveImagesParams.prompt params) rps 0 items)
                 ++ pre ++ [ev])
        with (tr ++ ((EvMkdir dir (Return tt)
                      :: batch_events dir (SaveImagesParams.prompt params) rps 0 items)
                     ++ pre) ++ [ev])
        by (rewrite <- !app_assoc; reflexivity).
      assert (Hq : Forall (fun ev => thrown_by ev = None)
                     ((EvMkdir dir (Return tt)
                       :: batch_events dir (SaveImagesParams.prompt params) rps 0 items) ++ pre)).
      { apply Forall_app. split; [|assumption].
        constructor; [reflexivity|apply batch_events_quiet]. }
      destruct e as [m|v].
      * eapply boundary_error; eauto.
      * now apply boundary_rethrow.
  - change (tr ++ [EvMkdir dir (Throw e0)]) with (tr ++ [] ++ [EvMkdir dir (Throw e0)]).
    eapply boundary_error; [reflexivity|reflexivity|constructor|reflexivity|].
    right. split; reflexivity.
Qed.

Lemma generation_boundary env tr key req (success : list OpenAI.Image -> CallToolResult) :
  (forall data, isError (success data) = None) ->
  Boundary (lit "Image generation failed: ") tr
    (try_catch (let! data := generate env key req in ret (success data))
               generation_failed tr).
Proof.
  intros Hs. unfold try_catch, bind, generate, ret.
  destruct (images_generate env tr key req) as [data|[m|v]] eqn:Hg.
  - apply boundary_success; [apply Hs|]. repeat constructor.
  - change (tr ++ [EvGenerate key req (Throw (ErrorObj m))])
      with (tr ++ [] ++ [EvGenerate key req (Throw (ErrorObj m))]).
    cbn [generation_failed]. unfold ret.
    eapply boundary_error; [reflexivity|reflexivity|constructor|reflexivity|].
    now left.
  - change (tr ++ [EvGenerate key req (Throw (NonError v))])
      with (tr ++ [] ++ [EvGenerate key req (Throw (NonError v))]).
    cbn [generation_failed]. unfold throw.
    apply boundary_rethrow; [constructor|reflexivity|reflexivity].
Qed.

(** C2, as the code has it.  Whatever the environment does, each
    operation ends in one of three ways: a success result after
    interactions that all succeeded; an error result that carries the
    message of the [Error] thrown by the failing interaction (any value
    thrown while creating the directory is turned into such an error);
    or, when a download, a write or the provider throws a value that is
    not an [Error] instance, by re-throwing that value to the caller.
    For the generation operations this is under an available
    credential. *)
Theorem failures_at_the_boundary env tr :
  (forall params,
      Boundary (lit "Failed to save images: ") tr (Server.saveImages env params tr))
  /\ (forall params,
         falsy (OPENAI_API_KEY env) = false ->
         Boundary (lit "Image generation failed: ") tr (Server.generateImage env params tr)
         /\ Boundary (lit "Image generation failed: ") tr
              (ImageGeneration.generateImage env params tr)).
Proof.
  split; [intros params; apply saveImages_boundary|].
  intros params Hkey.
  unfold Server.generateImage, ImageGeneration.generateImage. rewrite Hkey.
  split; apply generation_boundary; reflexivity.
Qed.

Lemma failures_at_the_boundary_witness :
  falsy (OPENAI_API_KEY Scenario.steady) = false
  /\ Boundary (lit "Image generation failed: ") []
       (Server.generateImage Scenario.steady Scenario.red_fox_request []).
Proof.
  split; [reflexivity|].
  apply (failures_at_the_boundary Scenario.steady []). reflexivity.
Defined.


(** C2 as stated fails: a rejection with a value that is not an [Error]
    instance leaves [saveImages] as a thrown value, not as a result. *)
Lemma non_error_rejection_propagates :
  Server.saveImages Rejecting.env Scenario.red_fox []
  = (Throw (NonError (lit "socket hang up")),
     [EvMkdir (lit "/tmp/out") (Return tt);
      EvFetch (lit "http://x/1.png") (Throw (NonError (lit "socket hang up")))]).
Proof. vm_compute. reflexivity. Qed.

(** * A failing download *)



(** C3 as stated fails for an HTTP failure: the status of the response
    is never looked at, so a 404 answer is saved like an image and the
    call succeeds. *)
Lemma http_failure_is_saved :
  exists result tr',
    Server.saveImages NotFound.env Scenario.red_fox [] = (Return result, tr')
    /\ isError result = None
    /\ result_member (lit "saved_paths") result
       = Some (JArr [JStr (lit "/tmp/out/a-red-fox---1700000000002-0.png");
                     JStr (lit "/tmp/out/a-red-fox---1700000000006-1.png")])
    /\ In (EvFetch (lit "http://x/1.png")
                   (Return {| status := 404; arrayBuffer := Return (lit "Not Found") |})) tr'
    /\ In (lit "/tmp/out/a-red-fox---1700000000002-0.png", Binary (lit "Not Found"))
          (written tr').
Proof.
  eexists _, _. split; [vm_compute; reflexivity|].
  split; [reflexivity|]. split; [vm_compute; reflexivity|].
  split; vm_compute; tauto.
Qed.

(** C3, as the code has it.  If the same call on the first [i] URLs goes
    through and the download at index [i] then throws an [Error]
    (rejected by [fetch], or while reading the body), the call returns
    an error result with that message and no [saved_paths]; the history
    ends with the failed download, so nothing at an index from [i] on is
    written and no later download is attempted, and the image and
    sidecar files of the indices below [i] are on disk. *)
Theorem download_failure_aborts env params tr i u m paths tr_i :
  let urls := SaveImagesParams.urls params in
  let prompt := SaveImagesParams.prompt params in
  let outputDir := SaveImagesParams.outputDir params in
  let dir := target_dir env outputDir in
  let rps := Server.revisedPrompts_or_default params in
  urls !! i = Some u ->
  Server.saveGeneratedImages env (take i urls) rps prompt outputDir tr = (Return paths, tr_i) ->
  download_fails (net_fetch env tr_i u) (ErrorObj m) ->
  exists result tr' items,
    Server.saveImages env params tr = (Return result, tr')
    /\ tr' = tr_i ++ [EvFetch u (net_fetch env tr_i u)]
    /\ isError result = Some true
    /\ result_text result = Some (lit "Failed to save images: " ++ m)
    /\ result_member (lit "saved_paths") result = None
    /\ length items = i
    /\ written tr' = written tr ++ batch_writes dir prompt rps 0 items
    /\ downloads tr' = downloads tr ++ take (S i) urls
    /\ forall j it, items !! j = Some it ->
         (j < i)%nat
         /\ urls !! j = Some (sv_url it)
         /\ disk tr' !! image_path dir prompt j it = Some (Binary (sv_bytes it))
         /\ disk tr' !! sidecar_path dir prompt j it = Some (sidecar_data prompt rps j it).
Proof.
  intros urls prompt outputDir dir rps Hu Hfirst Hfail.
  pose proof (target_dir_nonempty env outputDir) as Hdir. fold dir in Hdir.
  rewrite saveGeneratedImages_eq in Hfirst. cbv zeta in Hfirst. fold dir in Hfirst.
  destruct (fs_mkdir env tr dir) as [[]|e0] eqn:Hmk; [|discriminate].
  pose proof Hfirst as Hloop.
  apply save_loop_returns in Hloop as (items & Hus & _ & Htr & _).
  assert (Hlen : length items = i).
  { apply (f_equal length) in Hus. rewrite length_map, length_take in Hus.
    apply lookup_lt_Some in Hu. lia. }
  assert (Hrun : Server.saveGeneratedImages env urls rps prompt outputDir tr
                 = (Throw (ErrorObj m), tr_i ++ [EvFetch u (net_fetch env tr_i u)])).
  { rewrite saveGeneratedImages_eq. cbv zeta. fold dir. rewrite Hmk.
    rewrite <- (take_drop_middle urls i u Hu) at 1.
    rewrite save_loop_app, Hfirst. cbn [Server.save_loop]. unfold bind.
    rewrite (save_one_download_fails _ _ _ _ _ _ _ _ Hfail). reflexivity. }
  exists (error_result (lit "Failed to save images: " ++ m)),
    (tr_i ++ [EvFetch u (net_fetch env tr_i u)]), items.
  split.
  { unfold Server.saveImages, try_catch, bind. fold urls rps prompt outputDir.
    rewrite Hrun. reflexivity. }
  split; [reflexivity|]. split; [reflexivity|]. split; [reflexivity|].
  split; [reflexivity|]. split; [assumption|].
  assert (Hwr : written (tr_i ++ [EvFetch u (net_fetch env tr_i u)])
                = written tr ++ batch_writes dir prompt rps 0 items).
  { rewrite Htr, !written_app, written_batch_events. simpl. now rewrite !app_nil_r. }
  split; [assumption|].
  split.
  { rewrite Htr, !downloads_app, downloads_batch_events, Hus.
    change (downloads [EvMkdir dir (Return tt)]) with (@nil jstr).
    change (downloads [EvFetch u (net_fetch env tr_i u)]) with [u].
    rewrite app_nil_r, <- app_assoc. f_equal. symmetry. now apply take_S_r. }
  intros j it Hj.
  assert (Hji : (j < i)%nat) by (apply lookup_lt_Some in Hj; lia).
  split; [assumption|].
  split.
  { apply (f_equal (fun l => l !! j)) in Hus.
    rewrite list_lookup_fmap, Hj, lookup_take_lt in Hus by assumption. now symmetry. }
  destruct (batch_writes_lookup dir prompt rps 0 items j it Hj) as [H1 H2].
  rewrite Htr, !disk_app.
  split; (rewrite apply_events_other by (simpl; set_solver));
    apply apply_events_written; rewrite ?written_batch_events; try assumption;
    now apply batch_writes_NoDup.
Qed.

Lemma download_failure_aborts_witness :
  exists result tr',
    Server.saveImages Flaky.env Scenario.red_fox [] = (Return result, tr')
    /\ isError result = Some true
    /\ result_text result = Some (lit "Failed to save images: getaddrinfo ENOTFOUND x")
    /\ length (written tr') = 2%nat.
Proof.
  edestruct (download_failure_aborts Flaky.env Scenario.red_fox [] 1
               (lit "http://x/2.png") (lit "getaddrinfo ENOTFOUND x"))
    as (result & tr' & items & Hrun & _ & Herr & Htext & _ & Hlen & Hwr & _).
  - reflexivity.
  - vm_compute. reflexivity.
  - left. vm_compute. reflexivity.
  - exists result, tr'. rewrite Hwr, length_app, batch_writes_length, Hlen. auto.
Defined.

(** * Generating images *)


(** C4. Without a credential ([OPENAI_API_KEY] undefined or empty), both
    [generateImage] functions throw an [Error] to their caller instead
    of returning a result, and the history is left as it was: the
    provider is not called. *)
Theorem missing_credential_throws env params tr :
  falsy (OPENAI_API_KEY env) = true ->
  Server.generateImage env params tr
  = (Throw (ErrorObj (lit "OpenAI API key is not available")), tr)
  /\ ImageGeneration.generateImage env params tr
     = (Throw (ErrorObj (lit "OpenAI API key is not available")), tr)
  /\ provider_calls (snd (Server.generateImage env params tr)) = provider_calls tr
  /\ provider_calls (snd (ImageGeneration.generateImage env params tr)) = provider_calls tr.
Proof.
  intros H. unfold Server.generateImage, ImageGeneration.generateImage.
  rewrite H. repeat split.
Qed.

Lemma missing_credential_throws_witness :
  falsy (OPENAI_API_KEY Unconfigured.env) = true
  /\ Server.generateImage Unconfigured.env Scenario.red_fox_request []
     = (Throw (ErrorObj (lit "OpenAI API key is not available")), []).
Proof.
  split; [reflexivity|].
  apply (missing_credential_throws Unconfigured.env Scenario.red_fox_request []).
  reflexivity.
Defined.


Lemma serialize_optional_elements {A} (f : A -> option jstr) (l : list A) :
  map (fun x => match serialize x with Some d => d | None => JNull end)
      (map (fun a => of_optional (f a)) l)
  = map (fun a => nullable (f a)) l.
Proof.
  rewrite map_map. apply map_ext. intros a. destruct (f a); reflexivity.
Qed.

(** C7. With a credential, when the provider answers with a list of
    images, [generateImage] of the server calls the provider once with
    the request's fields and returns a success result whose [urls] and
    [revised_prompts] arrays both have one entry per returned image, in
    the provider's order: entry [i] of [urls] is the URL of image [i],
    entry [i] of [revised_prompts] is its revised prompt, or [null] when
    the provider gave none. *)
Theorem generated_urls_follow_provider env params tr data :
  let key := or_else (OPENAI_API_KEY env) [] in
  falsy (OPENAI_API_KEY env) = false ->
  images_generate env tr key (generate_body params) = Return data ->
  exists result urls revised,
    Server.generateImage env params tr
    = (Return result, tr ++ [EvGenerate key (generate_body params) (Return data)])
    /\ isError result = None
    /\ result_member (lit "urls") result = Some (JArr urls)
    /\ result_member (lit "revised_prompts") result = Some (JArr revised)
    /\ length urls = length data
    /\ length revised = length data
    /\ forall i image, data !! i = Some image ->
         urls !! i = Some (nullable (OpenAI.url image))
         /\ revised !! i = Some (nullable (OpenAI.revised_prompt image)).
Proof.
  intros key Hkey Hgen.
  exists {| content :=
              [TextContent (JSON_stringify
                 [ (lit "urls", VArr (map (fun image => of_optional (OpenAI.url image)) data));
                   (lit "revised_prompts",
                    VArr (map (fun image => of_optional (OpenAI.revised_prompt image)) data)) ]
                 0)];
            isError := None |},
    (map (fun image => nullable (OpenAI.url image)) data),
    (map (fun image => nullable (OpenAI.revised_prompt image)) data).
  split.
  { unfold Server.generateImage. rewrite Hkey. fold key.
    unfold try_catch, bind, generate, ret. rewrite Hgen. reflexivity. }
  split; [reflexivity|].
  split.
  { unfold result_member, result_document, JSON_stringify.
    cbn [content serialize_fields omap list_omap serialize fst snd member assoc].
    rewrite bool_decide_eq_true_2 by reflexivity.
    now rewrite serialize_optional_elements. }
  split.
  { unfold result_member, result_document, JSON_stringify.
    cbn [content serialize_fields omap list_omap serialize fst snd member assoc].
    rewrite bool_decide_eq_false_2 by (vm_compute; discriminate).
    rewrite bool_decide_eq_true_2 by reflexivity.
    now rewrite serialize_optional_elements. }
  split; [apply length_map|]. split; [apply length_map|].
  intros i image Hi. rewrite !list_lookup_fmap, Hi. split; reflexivity.
Qed.

Lemma generated_urls_follow_provider_witness :
  exists result,
    fst (Server.generateImage Scenario.steady Scenario.red_fox_request []) = Return result
    /\ result_member (lit "urls") result
       = Some (JArr [JStr (lit "http://x/1.png"); JStr (lit "http://x/2.png")])
    /\ result_member (lit "revised_prompts") result
       = Some (JArr [JStr (lit "a red fox, vivid"); JNull]).
Proof.
  destruct (generated_urls_follow_provider Scenario.steady Scenario.red_fox_request []
              Scenario.two_images)
    as (result & urls & revised & Hrun & _); [reflexivity|reflexivity|].
  exists result. rewrite Hrun. split; [reflexivity|].
  apply (f_equal fst) in Hrun. vm_compute in Hrun. injection Hrun as <-.
  split; vm_compute; reflexivity.
Defined.

(** * File names *)

(** C5. The file name derived from a prompt, a timestamp and an index
    is the one the specification describes: the first 30 code units of
    the prompt, each one outside a-z, A-Z, 0-9 replaced by a hyphen,
    lowercased, then a hyphen, the timestamp, a hyphen, the index and
    [.png].  Being a function of the three, it is the same whenever they
    are. *)
Theorem filename_derivation p t i :
  filename p t i = Spec.derived_name p t i.
Proof.
  unfold filename, Spec.derived_name. now rewrite safePrompt_spec.
Qed.

(** * Timestamps, names and sidecars of a batch *)


Lemma clock_readings_app tr1 tr2 :
  clock_readings (tr1 ++ tr2) = clock_readings tr1 ++ clock_readings tr2.
Proof. unfold clock_readings. apply omap_app. Qed.

Lemma clock_readings_batch dir prompt rps i items :
  clock_readings (batch_events dir prompt rps i items) = map sv_timestamp items.
Proof.
  revert i. induction items as [|a items IH]; intros i; [reflexivity|].
  change (batch_events dir prompt rps i (a :: items))
    with (item_events dir prompt rps i a ++ batch_events dir prompt rps (S i) items).
  rewrite clock_readings_app, IH. reflexivity.
Qed.

(** Item [k] of an answered batch was answered at the history reached
    after the items before it. *)
Lemma answered_lookup env dir prompt rps items : forall tr i k it,
  answered env dir prompt rps tr i items ->
  items !! k = Some it ->
  answered_item env dir prompt rps
    (tr ++ batch_events dir prompt rps i (take k items)) (i + k) it.
Proof.
  induction items as [|a items IH]; intros tr i [|k] it H Hk; simpl in Hk;
    try discriminate.
  - injection Hk as ->. destruct H as [H _]. simpl. now rewrite app_nil_r, Nat.add_0_r.
  - destruct H as [_ H]. specialize (IH _ _ _ _ H Hk).
    replace (i + S k)%nat with (S i + k)%nat by lia.
    cbn [take batch_events]. now rewrite app_assoc.
Qed.

(** A call of [saveImages] that returns a success result created the
    directory and went through every URL. *)
Lemma saveImages_success_inv env params tr result tr' :
  let urls := SaveImagesParams.urls params in
  let prompt := SaveImagesParams.prompt params in
  let dir := target_dir env (SaveImagesParams.outputDir params) in
  let rps := Server.revisedPrompts_or_default params in
  Server.saveImages env params tr = (Return result, tr') ->
  isError result = None ->
  exists items,
    fs_mkdir env tr dir = Return tt
    /\ map sv_url items = urls
    /\ result = Server.saved_result params (batch_paths dir prompt 0 items)
    /\ tr' = (tr ++ [EvMkdir dir (Return tt)]) ++ batch_events dir prompt rps 0 items
    /\ answered env dir prompt rps (tr ++ [EvMkdir dir (Return tt)]) 0 items.
Proof.
  intros urls prompt dir rps Hrun Herr.
  unfold Server.saveImages, try_catch, bind in Hrun.
  rewrite saveGeneratedImages_eq in Hrun. cbv zeta in Hrun.
  fold urls prompt dir rps in Hrun.
  destruct (fs_mkdir env tr dir) as [[]|e0] eqn:Hmk.
  - destruct (Server.save_loop _ _ _ _ _ _ _ _) as [[ps|[m|v]] tr1] eqn:Hloop.
    + injection Hrun as <- <-.
      apply save_loop_returns in Hloop as (items & Hus & -> & -> & Hans).
      exists items. auto.
    + injection Hrun as <- <-. discriminate.
    + discriminate.
  - injection Hrun as <- <-. discriminate.
Qed.

(** When the directory can be created and every download and write
    succeeds, [saveImages] returns a success result, whatever
    [revisedPrompts] holds. *)
Lemma saveImages_succeeds env params tr :
  let urls := SaveImagesParams.urls params in
  let dir := target_dir env (SaveImagesParams.outputDir params) in
  fs_mkdir env tr dir = Return tt ->
  downloads_succeed env urls ->
  writes_succeed env ->
  exists result tr',
    Server.saveImages env params tr = (Return result, tr') /\ isError result = None.
Proof.
  intros urls dir Hmk Hd Hw.
  destruct (answered_total env dir (SaveImagesParams.prompt params)
              (Server.revisedPrompts_or_default params) urls 0
              (tr ++ [EvMkdir dir (Return tt)]) Hd Hw) as (items & Hus & Hans).
  eexists _, _. split; [|shelve].
  unfold Server.saveImages, try_catch, bind.
  rewrite saveGeneratedImages_eq. cbv zeta. fold dir urls.
  rewrite Hmk, <- Hus, (save_loop_answered _ _ _ _ _ _ _ _ Hans). reflexivity.
  Unshelve. reflexivity.
Qed.


Lemma sidecar_data_document prompt rps i it :
  sidecar_data prompt rps i it
  = Utf8 (JsonText (sidecar_document prompt (mjoin (rps !! i)) (sv_url it) (sv_timestamp it)
                                     (filename prompt (sv_timestamp it) i)) 2).
Proof. reflexivity. Qed.

Ltac decide_keys :=
  repeat first
    [ rewrite bool_decide_eq_true_2 by reflexivity
    | rewrite bool_decide_eq_false_2 by (vm_compute; discriminate) ].

Lemma sidecar_members prompt revisedPrompt u timestamp name :
  let doc := sidecar_document prompt revisedPrompt u timestamp name in
  member (lit "original_prompt") doc = Some (JStr prompt)
  /\ member (lit "revised_prompt") doc = JStr <$> revisedPrompt
  /\ member (lit "url") doc = Some (JStr u)
  /\ member (lit "timestamp") doc = Some (JNum timestamp)
  /\ member (lit "filename") doc = Some (JStr name).
Proof.
  unfold sidecar_document, Server.metadata, serialize_fields.
  destruct revisedPrompt as [r|];
    cbn [omap list_omap serialize of_optional fst snd member assoc fmap option_fmap option_map];
    decide_keys; repeat split; reflexivity.
Qed.

Example sidecar_without_revised_prompt :
  sidecar_document (lit "A Red Fox!!") None (lit "http://x/1.png") 1700000000002
                   (lit "a-red-fox---1700000000002-0.png")
  = JObj [ (lit "original_prompt", JStr (lit "A Red Fox!!"));
           (lit "url", JStr (lit "http://x/1.png"));
           (lit "timestamp", JNum 1700000000002);
           (lit "filename", JStr (lit "a-red-fox---1700000000002-0.png")) ].
Proof. reflexivity. Qed.



(** C6 as stated fails: the clock is read once per item, after that
    item's download, and when time passes between two items their file
    names carry different timestamps. *)
Lemma timestamps_differ_within_batch :
  exists result tr',
    Server.saveImages Scenario.steady Scenario.red_fox [] = (Return result, tr')
    /\ clock_readings tr' = [1700000000002; 1700000000006]%Z
    /\ result_member (lit "saved_paths") result
       = Some (JArr [JStr RedFoxRun.first_path; JStr RedFoxRun.second_path]).
Proof.
  eexists _, _. split; [vm_compute; reflexivity|].
  split; vm_compute; reflexivity.
Qed.

(** C6, as the code has it.  In a call that succeeds, the clock is read
    once for each item, right after that item's download; the reading
    of item [i] is the timestamp in its file name and in its sidecar
    record; and the saved paths are pairwise distinct whatever the
    readings are, because each carries its index. *)
Theorem timestamps_per_item env params tr result tr' :
  let urls := SaveImagesParams.urls params in
  let prompt := SaveImagesParams.prompt params in
  let dir := target_dir env (SaveImagesParams.outputDir params) in
  let rps := Server.revisedPrompts_or_default params in
  Server.saveImages env params tr = (Return result, tr') ->
  isError result = None ->
  exists items,
    map sv_url items = urls
    /\ clock_readings tr' = clock_readings tr ++ map sv_timestamp items
    /\ result_member (lit "saved_paths") result
       = Some (JArr (map JStr (batch_paths dir prompt 0 items)))
    /\ NoDup (batch_paths dir prompt 0 items)
    /\ forall i it, items !! i = Some it ->
         let fetched := EvFetch (sv_url it)
                          (Return {| status := sv_status it;
                                     arrayBuffer := Return (sv_bytes it) |}) in
         sv_timestamp it
         = clock env ((tr ++ [EvMkdir dir (Return tt)])
                        ++ batch_events dir prompt rps 0 (take i items) ++ [fetched])
         /\ batch_paths dir prompt 0 items !! i
            = Some (Path.join [dir; filename prompt (sv_timestamp it) i])
         /\ exists doc,
              disk tr' !! (Path.join [dir; filename prompt (sv_timestamp it) i] ++ lit ".json")
              = Some (Utf8 (JsonText doc 2))
              /\ member (lit "timestamp") doc = Some (JNum (sv_timestamp it))
              /\ member (lit "filename") doc
                 = Some (JStr (filename prompt (sv_timestamp it) i)).
Proof.
  intros urls prompt dir rps Hrun Herr.
  pose proof (target_dir_nonempty env (SaveImagesParams.outputDir params)) as Hdir.
  fold dir in Hdir.
  destruct (saveImages_success_inv _ _ _ _ _ Hrun Herr)
    as (items & Hmk & Hus & -> & -> & Hans).
  fold urls prompt dir rps in Hus, Hans |- *.
  exists items. split; [assumption|].
  split.
  { rewrite !clock_readings_app, clock_readings_batch. simpl. now rewrite app_nil_r. }
  split; [apply saved_result_paths|].
  split; [now apply batch_paths_NoDup|].
  intros i it Hi fetched.
  pose proof (answered_lookup _ _ _ _ _ _ _ _ _ Hans Hi) as (_ & Hclock & _).
  split; [now rewrite <- Hclock, <- app_assoc|].
  split; [apply (batch_paths_lookup dir prompt 0 items i it Hi)|].
  destruct (batch_writes_lookup dir prompt rps 0 items i it Hi) as [_ H2].
  destruct (sidecar_members prompt (mjoin (rps !! i)) (sv_url it) (sv_timestamp it)
              (filename prompt (sv_timestamp it) i)) as (_ & _ & _ & Ht & Hn).
  eexists. split; [|split; [exact Ht|exact Hn]].
  rewrite disk_app. rewrite <- sidecar_data_document.
  apply apply_events_written; rewrite ?written_batch_events;
    [now apply batch_writes_NoDup|exact H2].
Qed.

Lemma timestamps_per_item_witness :
  exists items,
    map sv_timestamp items = [1700000000002; 1700000000006]%Z
    /\ NoDup (batch_paths (lit "/tmp/out") (lit "A Red Fox!!") 0 items).
Proof.
  destruct (Server.saveImages Scenario.steady Scenario.red_fox []) as [o tr'] eqn:Hrun.
  pose proof Hrun as Hval. vm_compute in Hval. injection Hval as <- <-.
  destruct (timestamps_per_item Scenario.steady Scenario.red_fox [] _ _ Hrun eq_refl)
    as (items & _ & Hclock & _ & Hnd & _).
  exists items. split; [|exact Hnd].
  vm_compute in Hclock. now symmetry.
Defined.

(** * Sidecar records *)


(** ** A call of [saveImages], however it ends *)








(** * The red fox scenario *)

Lemma red_fox_filename t i :
  filename (lit "A Red Fox!!") t i
  = lit "a-red-fox---" ++ Number_toString t ++ lit "-"
      ++ Number_toString (Z.of_nat i) ++ lit ".png".
Proof.
  rewrite filename_unfold.
  replace (safePrompt (lit "A Red Fox!!")) with (lit "a-red-fox--")
    by (vm_compute; reflexivity).
  change (lit "a-red-fox---") with (lit "a-red-fox--" ++ [Unit.hyphen]).
  now rewrite <- app_assoc.
Qed.

Lemma red_fox_path t i :
  Path.join [lit "/tmp/out"; filename (lit "A Red Fox!!") t i]
  = lit "/tmp/out/a-red-fox---" ++ Number_toString t ++ lit "-"
      ++ Number_toString (Z.of_nat i) ++ lit ".png".
Proof.
  rewrite join_plain by (try apply filename_plain; discriminate).
  rewrite red_fox_filename, dir_prefix_tmp_out.
  change (lit "/tmp/out/a-red-fox---") with (lit "/tmp/out/" ++ lit "a-red-fox---").
  now rewrite <- app_assoc.
Qed.

(** C9 as stated fails: the sanitised prompt [a-red-fox--] is followed
    by the separating hyphen, so the names have three hyphens before the
    timestamp, and no file is written under the name with two. *)
Lemma red_fox_names_have_three_hyphens :
  exists result tr',
    Server.saveImages Scenario.steady Scenario.red_fox [] = (Return result, tr')
    /\ clock_readings tr' = [1700000000002; 1700000000006]%Z
    /\ map fst (written tr')
       = [ lit "/tmp/out/a-red-fox---1700000000002-0.png";
           lit "/tmp/out/a-red-fox---1700000000002-0.png.json";
           lit "/tmp/out/a-red-fox---1700000000006-1.png";
           lit "/tmp/out/a-red-fox---1700000000006-1.png.json" ]
    /\ ~ In (lit "/tmp/out/a-red-fox--1700000000002-0.png") (map fst (written tr'))
    /\ ~ In (lit "/tmp/out/a-red-fox--1700000000006-1.png") (map fst (written tr')).
Proof.
  eexists _, _. split; [vm_compute; reflexivity|].
  split; [vm_compute; reflexivity|]. split; [vm_compute; reflexivity|].
  split; vm_compute; intuition discriminate.
Qed.

(** C9, as the code has it.  For the scenario's request, when the
    directory can be created and the downloads and writes succeed, the
    call writes under [/tmp/out] the image files
    [a-red-fox---<t0>-0.png] and [a-red-fox---<t1>-1.png], where [t0]
    and [t1] are the clock readings taken for the two items, each
    followed by its [.json] sidecar, and nothing else; [saved_paths]
    holds the two image paths. *)
Theorem red_fox_scenario env tr :
  fs_mkdir env tr (lit "/tmp/out") = Return tt ->
  downloads_succeed env (SaveImagesParams.urls Scenario.red_fox) ->
  writes_succeed env ->
  exists t0 t1 b0 b1 d0 d1 result tr',
    let p0 := lit "/tmp/out/a-red-fox---" ++ Number_toString t0 ++ lit "-0.png" in
    let p1 := lit "/tmp/out/a-red-fox---" ++ Number_toString t1 ++ lit "-1.png" in
    Server.saveImages env Scenario.red_fox tr = (Return result, tr')
    /\ isError result = None
    /\ clock_readings tr' = clock_readings tr ++ [t0; t1]
    /\ result_member (lit "saved_paths") result = Some (JArr [JStr p0; JStr p1])
    /\ written tr'
       = written tr ++ [ (p0, Binary b0); (p0 ++ lit ".json", Utf8 (JsonText d0 2));
                         (p1, Binary b1); (p1 ++ lit ".json", Utf8 (JsonText d1 2)) ].
Proof.
  intros Hmk Hd Hw.
  destruct (saveImages_succeeds env Scenario.red_fox tr Hmk Hd Hw)
    as (result & tr' & Hrun & Herr).
  destruct (saveImages_success_inv _ _ _ _ _ Hrun Herr)
    as (items & _ & Hus & Hres & Htr & _).
  change (target_dir env (SaveImagesParams.outputDir Scenario.red_fox))
    with (lit "/tmp/out") in Hres, Htr.
  change (SaveImagesParams.prompt Scenario.red_fox) with (lit "A Red Fox!!") in Hres, Htr.
  destruct items as [|it0 [|it1 [|it2 items]]]; try discriminate Hus.
  set (rps := Server.revisedPrompts_or_default Scenario.red_fox) in *.
  exists (sv_timestamp it0), (sv_timestamp it1), (sv_bytes it0), (sv_bytes it1),
    (sidecar_document (lit "A Red Fox!!") (mjoin (rps !! 0%nat)) (sv_url it0)
       (sv_timestamp it0) (filename (lit "A Red Fox!!") (sv_timestamp it0) 0)),
    (sidecar_document (lit "A Red Fox!!") (mjoin (rps !! 1%nat)) (sv_url it1)
       (sv_timestamp it1) (filename (lit "A Red Fox!!") (sv_timestamp it1) 1)),
    result, tr'.
  cbv zeta. split; [assumption|]. split; [assumption|].
  assert (Hp0 : image_path (lit "/tmp/out") (lit "A Red Fox!!") 0 it0
                = lit "/tmp/out/a-red-fox---" ++ Number_toString (sv_timestamp it0)
                    ++ lit "-0.png") by apply red_fox_path.
  assert (Hp1 : image_path (lit "/tmp/out") (lit "A Red Fox!!") 1 it1
                = lit "/tmp/out/a-red-fox---" ++ Number_toString (sv_timestamp it1)
                    ++ lit "-1.png") by apply red_fox_path.
  split.
  { rewrite Htr, !clock_readings_app, clock_readings_batch. simpl.
    now rewrite app_nil_r. }
  split.
  { rewrite Hres, saved_result_paths. cbn [batch_paths map]. now rewrite Hp0, Hp1. }
  rewrite Htr, !written_app, written_batch_events.
  cbn [batch_writes item_writes app]. unfold sidecar_path.
  rewrite Hp0, Hp1, !sidecar_data_document. simpl written. now rewrite app_nil_r.
Qed.

Lemma red_fox_scenario_witness :
  exists result tr',
    Server.saveImages Scenario.steady Scenario.red_fox [] = (Return result, tr')
    /\ isError result = None
    /\ length (written tr') = 4%nat.
Proof.
  destruct (red_fox_scenario Scenario.steady [])
    as (t0 & t1 & b0 & b1 & d0 & d1 & result & tr' & Hrun & Herr & _ & _ & Hwr).
  - reflexivity.
  - intros tr u _. eexists _, _. reflexivity.
  - intros tr file data. reflexivity.
  - exists result, tr'. rewrite Hwr. auto.
Defined.

(** * An empty batch *)


(** C10 as stated fails: with no URL at all the call still fails when
    the directory cannot be created. *)
Lemma empty_batch_fails_without_directory :
  Server.saveImages ReadOnly.env ReadOnly.empty_batch []
  = (Return (error_result
               (lit "Failed to save images: Failed to create directory: EACCES: permission denied, mkdir")),
     [EvMkdir (lit "/tmp/out") (Throw (ErrorObj (lit "EACCES: permission denied, mkdir")))]).
Proof. vm_compute. reflexivity. Qed.

(** C10, as the code has it.  For a request without URLs, when the
    target directory can be created, the call creates it ([outputDir]
    when it is a non-empty string, [images] under the working directory
    otherwise), downloads and writes nothing, and returns a success
    result with an empty [saved_paths] and a message saying that 0
    images were saved. *)
Theorem empty_batch_succeeds env params tr :
  let outputDir := SaveImagesParams.outputDir params in
  let dir := match outputDir with
             | Some (c :: s) => c :: s
             | _ => Path.join [cwd env; lit "images"]
             end in
  SaveImagesParams.urls params = [] ->
  fs_mkdir env tr dir = Return tt ->
  exists result tr',
    Server.saveImages env params tr = (Return result, tr')
    /\ tr' = tr ++ [EvMkdir dir (Return tt)]
    /\ isError result = None
    /\ result_member (lit "saved_paths") result = Some (JArr [])
    /\ result_member (lit "message") result
       = Some (JStr (lit "Successfully saved 0 images to "
                       ++ or_else outputDir (lit "images") ++ lit " directory"))
    /\ created tr' = created tr ++ [dir]
    /\ downloads tr' = downloads tr
    /\ written tr' = written tr.
Proof.
  intros outputDir dir Hurls Hmk.
  exists (Server.saved_result params []), (tr ++ [EvMkdir dir (Return tt)]).
  split.
  { unfold Server.saveImages, try_catch, bind. rewrite saveGeneratedImages_eq.
    cbv zeta. change (target_dir env (SaveImagesParams.outputDir params)) with dir.
    rewrite Hmk, Hurls. reflexivity. }
  split; [reflexivity|]. split; [reflexivity|].
  split; [apply saved_result_paths|].
  split; [apply saved_result_message|].
  unfold created, downloads, written. rewrite !omap_app. simpl.
  now rewrite !app_nil_r.
Qed.

Lemma empty_batch_succeeds_witness :
  exists result,
    Server.saveImages Scenario.steady ReadOnly.empty_batch []
    = (Return result, [EvMkdir (lit "/tmp/out") (Return tt)])
    /\ result_member (lit "saved_paths") result = Some (JArr [])
    /\ result_member (lit "message") result
       = Some (JStr (lit "Successfully saved 0 images to /tmp/out directory")).
Proof.
  destruct (empty_batch_succeeds Scenario.steady ReadOnly.empty_batch [])
    as (result & tr' & Hrun & -> & _ & Hpaths & Hmsg & _).
  - reflexivity.
  - reflexivity.
  - exists result. split; [exact Hrun|]. split; [exact Hpaths|]. exact Hmsg.
Defined.

Example default_directory :
  target_dir Scenario.steady None = lit "/srv/app/images"
  /\ target_dir Scenario.steady (Some []) = lit "/srv/app/images".
Proof. split; vm_compute; reflexivity. Qed.

(** * Schemas *)

Lemma parse_object shape fields :
  Zod.parse (Zod.ZObject shape) (VObj fields)
  = match Zod.parse_shape shape fields with
    | Some out => Some (VObj out)
    | None => None
    end.
Proof.
  cbn [Zod.parse].
  match goal with
  | |- match ?f shape with _ => _ end = _ =>
      assert (H : forall sh, f sh = Zod.parse_shape sh fields)
  end.
  { induction sh as [|[k s] sh IH]; [reflexivity|].
    cbn [Zod.parse_shape]. rewrite <- IH. reflexivity. }
  now rewrite H.
Qed.

Lemma parse_object_inv shape v out :
  Zod.parse (Zod.ZObject shape) v = Some out ->
  exists fields parsed,
    v = VObj fields /\ out = VObj parsed /\ Zod.parse_shape shape fields = Some parsed.
Proof.
  destruct v; try discriminate. rewrite parse_object.
  destruct (Zod.parse_shape shape fields) as [parsed|] eqn:E; [|discriminate].
  intros H; injection H as <-. eauto.
Qed.

Lemma parse_shape_cons k s shape fields :
  Zod.parse_shape ((k, s) :: shape) fields
  = match Zod.parse s (default VUndefined (Zod.field k fields)) with
    | None => None
    | Some r =>
        match Zod.parse_shape shape fields with
        | None => None
        | Some out =>
            Some (if Zod.is_undefined r && negb (bool_decide (is_Some (Zod.field k fields)))
                  then out else (k, r) :: out)
        end
    end.
Proof. cbn [Zod.parse_shape]. now destruct (Zod.field k fields). Qed.

Lemma mapM_strings (l : list jstr) :
  mapM (Zod.parse Zod.ZString) (map VStr l) = Some (map VStr l).
Proof.
  apply mapM_Some. induction l; simpl; constructor; auto.
Qed.

Lemma strings_map (l : list jstr) : strings (VArr (map VStr l)) = Some l.
Proof.
  unfold strings. apply mapM_Some. induction l; simpl; constructor; auto.
Qed.

(** An array of strings is what [z.array(z.string())] accepts, and it
    is handed over unchanged. *)
Lemma parse_string_array v r :
  Zod.parse (Zod.ZArray Zod.ZString) v = Some r <->
  r = v /\ exists l, v = VArr (map VStr l).
Proof.
  split.
  - destruct v; try discriminate. cbn [Zod.parse].
    destruct (mapM _ items) as [parsed|] eqn:E; [|discriminate].
    intros H; injection H as <-. apply mapM_Some in E.
    assert (Hl : parsed = items /\ exists l, items = map VStr l).
    { induction E as [|x y xs ys Hxy _ [IH1 [l IH2]]]; [split; [reflexivity|now exists []]|].
      destruct x; try discriminate. injection Hxy as <-. subst.
      split; [reflexivity|]. now exists (s :: l). }
    destruct Hl as [-> [l ->]]. split; [reflexivity|]. now exists l.
  - intros [-> [l ->]]. cbn [Zod.parse]. now rewrite mapM_strings.
Qed.

Lemma strings_Some v l : strings v = Some l <-> v = VArr (map VStr l).
Proof.
  split; [|intros ->; apply strings_map].
  destruct v; try discriminate. unfold strings. intros H. apply mapM_Some in H.
  f_equal. induction H as [|x y xs ys Hxy _ IH]; [reflexivity|].
  destruct x; try discriminate. injection Hxy as <-. simpl. now rewrite IH.
Qed.

(** What the schema of a required or optional property makes of the
    property as the object has it ([None]: no such key). *)
Lemma parse_required_strings (o : option jsval) :
  match Zod.parse (Zod.ZArray Zod.ZString) (default VUndefined o) with
  | Some r => exists l, o = Some (VArr (map VStr l)) /\ r = VArr (map VStr l)
  | None => o ≫= strings = None
  end.
Proof.
  destruct (Zod.parse _ _) as [r|] eqn:E.
  - apply parse_string_array in E as [-> [l E]]. exists l.
    destruct o as [x|]; [|discriminate].
    change (default VUndefined (Some x)) with x in E. subst; auto.
  - destruct o as [x|]; [|reflexivity].
    change (default VUndefined (Some x)) with x in E. cbn [mbind option_bind].
    destruct (strings x) as [l|] eqn:Hs; [|reflexivity].
    apply strings_Some in Hs. subst x.
    assert (H : Zod.parse (Zod.ZArray Zod.ZString) (VArr (map VStr l))
                = Some (VArr (map VStr l))) by (apply parse_string_array; eauto).
    congruence.
Qed.

Lemma parse_required_string (o : option jsval) :
  match Zod.parse Zod.ZString (default VUndefined o) with
  | Some r => exists s, o = Some (VStr s) /\ r = VStr s
  | None => o ≫= string_of = None
  end.
Proof. destruct o as [[]|]; simpl; eauto. Qed.

Lemma parse_optional_strings (o : option jsval) :
  match Zod.parse (Zod.ZOptional (Zod.ZArray Zod.ZString)) (default VUndefined o) with
  | Some r =>
      exists rps, optional_of strings o = Some rps
                  /\ r = match rps with Some l => VArr (map VStr l) | None => VUndefined end
  | None => optional_of strings o = None
  end.
Proof.
  destruct o as [x|]; [|exists None; auto].
  change (default VUndefined (Some x)) with x.
  destruct x; try (now exists None); try reflexivity.
  pose proof (parse_required_strings (Some (VArr items))) as H.
  change (default VUndefined (Some (VArr items))) with (VArr items) in H.
  cbn [mbind option_bind] in H.
  change (Zod.parse (Zod.ZOptional (Zod.ZArray Zod.ZString)) (VArr items))
    with (Zod.parse (Zod.ZArray Zod.ZString) (VArr items)).
  change (optional_of strings (Some (VArr items)))
    with (match strings (VArr items) with Some a => Some (Some a) | None => None end).
  destruct (Zod.parse _ _) as [r|].
  - destruct H as (l & Hx & ->). injection Hx as ->. rewrite strings_map. now exists (Some l).
  - now rewrite H.
Qed.

Lemma parse_optional_string (o : option jsval) :
  match Zod.parse (Zod.ZOptional Zod.ZString) (default VUndefined o) with
  | Some r =>
      exists d, optional_of string_of o = Some d
                /\ r = match d with Some s => VStr s | None => VUndefined end
  | None => optional_of string_of o = None
  end.
Proof.
  destruct o as [[]|]; simpl; try reflexivity;
    first [now exists None | eexists (Some _); eauto].
Qed.

Lemma string_field_eq key fields :
  string_field key fields = Zod.field key fields ≫= string_of.
Proof. unfold string_field. now destruct (Zod.field key fields) as [[]|]. Qed.

Lemma save_request_view v :
  match Zod.parse SaveImagesRequestSchema v with
  | Some out =>
      exists params, as_save_params v = Some params /\ as_save_params out = Some params
  | None => as_save_params v = None
  end.
Proof.
  destruct v; try reflexivity.
  unfold SaveImagesRequestSchema. rewrite parse_object, !parse_shape_cons.
  cbn [Zod.parse_shape]. unfold as_save_params at 1 3. rewrite !string_field_eq.
  pose proof (parse_required_strings (Zod.field (lit "urls") fields)) as H1.
  pose proof (parse_required_string (Zod.field (lit "prompt") fields)) as H2.
  pose proof (parse_optional_strings (Zod.field (lit "revisedPrompts") fields)) as H3.
  pose proof (parse_optional_string (Zod.field (lit "outputDir") fields)) as H4.
  destruct (Zod.parse (Zod.ZArray Zod.ZString) _) as [r1|]; [|now rewrite H1].
  destruct H1 as (us & -> & ->).
  destruct (Zod.parse Zod.ZString _) as [r2|];
    [|cbn [mbind option_bind]; rewrite strings_map, H2; reflexivity].
  destruct H2 as (p & -> & ->).
  destruct (Zod.parse (Zod.ZOptional (Zod.ZArray Zod.ZString)) _) as [r3|];
    [|cbn [mbind option_bind string_of]; rewrite strings_map, H3; reflexivity].
  destruct H3 as (rps & -> & ->).
  destruct (Zod.parse (Zod.ZOptional Zod.ZString) _) as [r4|];
    [|cbn [mbind option_bind string_of]; rewrite strings_map, H4; reflexivity].
  destruct H4 as (d & -> & ->).
  cbn [mbind option_bind string_of]. rewrite strings_map.
  eexists. split; [reflexivity|].
  destruct rps as [l|], d as [s|];
    destruct (Zod.field (lit "revisedPrompts") fields) as [x3|];
    destruct (Zod.field (lit "outputDir") fields) as [x4|];
    cbn [Zod.is_undefined andb negb as_save_params Zod.field string_field];
    rewrite ?bool_decide_eq_true_2 by eauto;
    rewrite ?(bool_decide_eq_false_2 (is_Some None)) by (intros [? ?]; discriminate);
    cbn [andb negb Zod.field]; decide_keys;
    cbn [mbind option_bind optional_of string_of]; rewrite ?strings_map; reflexivity.
Qed.

Lemma as_save_params_args params : as_save_params (save_args params) = Some params.
Proof.
  destruct params as [us p [l|] [d|]]; unfold as_save_params, save_args, string_field;
    cbn [SaveImagesParams.urls SaveImagesParams.prompt SaveImagesParams.revisedPrompts
         SaveImagesParams.outputDir app Zod.field];
    decide_keys; cbn [mbind option_bind optional_of string_of];
    rewrite ?strings_map; reflexivity.
Qed.

Lemma parse_enum_default values d o r :
  d ∈ values ->
  Zod.parse (Zod.ZDefault (Zod.ZOptional (Zod.ZEnum values)) (VStr d)) (default VUndefined o)
  = Some r
  <-> exists x, given o (VStr d) = VStr x /\ x ∈ values /\ r = VStr x.
Proof.
  intros Hd. destruct o as [x|]; [change (default VUndefined (Some x)) with x|];
    [destruct x|]; cbn [Zod.parse given default from_option];
    try (split; [discriminate|intros (x & H & _); discriminate]).
  - rewrite bool_decide_eq_true_2 by assumption. split.
    + intros H; injection H as <-. eauto.
    + intros (x & H & _ & ->). now injection H as ->.
  - case_bool_decide as Hs; split.
    + intros H; injection H as <-. eauto.
    + intros (x & H & _ & ->). now injection H as ->.
    + discriminate.
    + intros (x & H & Hx & _). injection H as ->. contradiction.
  - rewrite bool_decide_eq_true_2 by assumption. split.
    + intros H; injection H as <-. eauto.
    + intros (x & H & _ & ->). now injection H as ->.
Qed.

Lemma parse_number_default lo hi d o r :
  Zod.within (Some lo) (Some hi) d = true ->
  Zod.parse (Zod.ZDefault (Zod.ZOptional (Zod.ZNumber (Some lo) (Some hi))) (VNum d))
            (default VUndefined o) = Some r
  <-> exists z, given o (VNum d) = VNum z /\ (lo <= z <= hi)%Z /\ r = VNum z.
Proof.
  intros Hd.
  assert (Hw : forall z, Zod.within (Some lo) (Some hi) z = true <-> (lo <= z <= hi)%Z).
  { intros z. unfold Zod.within. rewrite andb_true_iff, !Z.leb_le. tauto. }
  destruct o as [x|]; [change (default VUndefined (Some x)) with x|];
    [destruct x|]; cbn [Zod.parse given default from_option];
    try (split; [discriminate|intros (x & H & _); discriminate]).
  - rewrite Hd. split.
    + intros H; injection H as <-. exists d. now rewrite <- Hw.
    + intros (x & H & _ & ->). now injection H as ->.
  - destruct (Zod.within _ _ z) eqn:Hz; split.
    + intros H; injection H as <-. exists z. now rewrite <- Hw.
    + intros (x & H & _ & ->). now injection H as ->.
    + discriminate.
    + intros (x & H & Hx & _). injection H as ->. apply Hw in Hx. congruence.
  - rewrite Hd. split.
    + intros H; injection H as <-. exists d. now rewrite <- Hw.
    + intros (x & H & _ & ->). now injection H as ->.
Qed.

Lemma parse_required_string_iff o r :
  Zod.parse Zod.ZString (default VUndefined o) = Some r
  <-> exists s, o = Some (VStr s) /\ r = VStr s.
Proof.
  destruct o as [[]|]; simpl; split; try discriminate;
    try (intros (s' & H & _); discriminate).
  - intros H; injection H as <-. eauto.
  - intros (s' & H & ->). now injection H as ->.
Qed.

Lemma sizes_text x : x ∈ sizes <-> exists sz, x = Size_text sz.
Proof.
  unfold sizes. rewrite !elem_of_cons, elem_of_nil. split.
  - intros [->|[->|[->|[]]]];
      [now exists S1024x1024|now exists S1024x1792|now exists S1792x1024].
  - intros [[] ->]; auto.
Qed.

Lemma qualities_text x : x ∈ qualities <-> exists q, x = Quality_text q.
Proof.
  unfold qualities. rewrite !elem_of_cons, elem_of_nil. split.
  - intros [->|[->|[]]]; [now exists standard|now exists hd].
  - intros [[] ->]; auto.
Qed.

Lemma styles_text x : x ∈ styles <-> exists st, x = Style_text st.
Proof.
  unfold styles. rewrite !elem_of_cons, elem_of_nil. split.
  - intros [->|[->|[]]]; [now exists vivid|now exists natural].
  - intros [[] ->]; auto.
Qed.

Lemma as_generation_params_args params :
  as_generation_params (generation_args params) = Some params.
Proof.
  destruct params as [p [] [] [] n]; unfold as_generation_params, generation_args, string_field;
    cbn [ImageGenerationParams.prompt ImageGenerationParams.size ImageGenerationParams.quality
         ImageGenerationParams.style ImageGenerationParams.n Zod.field];
    decide_keys; vm_compute; reflexivity.
Qed.

Lemma default_in_sizes : lit "1024x1024" ∈ sizes.
Proof. unfold sizes. set_solver. Qed.
Lemma default_in_qualities : lit "standard" ∈ qualities.
Proof. unfold qualities. set_solver. Qed.
Lemma default_in_styles : lit "vivid" ∈ styles.
Proof. unfold styles. set_solver. Qed.

(** X1. [ImageGenerationRequestSchema] accepts a value exactly when it is
    an object whose [prompt] is a string and whose [size], [quality],
    [style] and [n], each taken as given or else as its declared default
    ([1024x1024], [standard], [vivid], [1]), are one of the listed
    sizes, qualities and styles and a number from 1 to 10 (numbers are
    integers here).  The output then has exactly these five keys, with
    the defaults filled in, and reads as the parameters [generateImage]
    is called with. *)
Theorem generation_request_validation v out :
  Zod.parse ImageGenerationRequestSchema v = Some out
  <-> exists fields params,
        v = VObj fields
        /\ Zod.field (lit "prompt") fields = Some (VStr (ImageGenerationParams.prompt params))
        /\ given (Zod.field (lit "size") fields) (VStr (lit "1024x1024"))
           = VStr (Size_text (ImageGenerationParams.size params))
        /\ given (Zod.field (lit "quality") fields) (VStr (lit "standard"))
           = VStr (Quality_text (ImageGenerationParams.quality params))
        /\ given (Zod.field (lit "style") fields) (VStr (lit "vivid"))
           = VStr (Style_text (ImageGenerationParams.style params))
        /\ given (Zod.field (lit "n") fields) (VNum 1) = VNum (ImageGenerationParams.n params)
        /\ (1 <= ImageGenerationParams.n params <= 10)%Z
        /\ out = generation_args params
        /\ as_generation_params out = Some params.
Proof.
  unfold ImageGenerationRequestSchema. split.
  - intros H. apply parse_object_inv in H as (fields & parsed & -> & -> & H).
    rewrite !parse_shape_cons in H. cbn [Zod.parse_shape] in H.
    destruct (Zod.parse Zod.ZString _) as [r1|] eqn:E1; [|discriminate].
    apply parse_required_string_iff in E1 as (p & Hp & ->).
    destruct (Zod.parse (Zod.ZDefault (Zod.ZOptional (Zod.ZEnum sizes)) _) _)
      as [r2|] eqn:E2; [|discriminate].
    apply parse_enum_default in E2 as (x2 & H2 & Hx2 & ->); [|apply default_in_sizes].
    apply sizes_text in Hx2 as [sz ->].
    destruct (Zod.parse (Zod.ZDefault (Zod.ZOptional (Zod.ZEnum qualities)) _) _)
      as [r3|] eqn:E3; [|discriminate].
    apply parse_enum_default in E3 as (x3 & H3 & Hx3 & ->); [|apply default_in_qualities].
    apply qualities_text in Hx3 as [q ->].
    destruct (Zod.parse (Zod.ZDefault (Zod.ZOptional (Zod.ZEnum styles)) _) _)
      as [r4|] eqn:E4; [|discriminate].
    apply parse_enum_default in E4 as (x4 & H4 & Hx4 & ->); [|apply default_in_styles].
    apply styles_text in Hx4 as [st ->].
    destruct (Zod.parse (Zod.ZDefault (Zod.ZOptional (Zod.ZNumber _ _)) _) _)
      as [r5|] eqn:E5; [|discriminate].
    apply parse_number_default in E5 as (n & H5 & Hn & ->); [|reflexivity].
    cbn [Zod.is_undefined andb] in H. injection H as <-.
    exists fields,
      {| ImageGenerationParams.prompt := p; ImageGenerationParams.size := sz;
         ImageGenerationParams.quality := q; ImageGenerationParams.style := st;
         ImageGenerationParams.n := n |}.
    cbn [ImageGenerationParams.prompt ImageGenerationParams.size
         ImageGenerationParams.quality ImageGenerationParams.style ImageGenerationParams.n].
    repeat (split; [assumption || reflexivity|]).
    apply (as_generation_params_args
             {| ImageGenerationParams.prompt := p; ImageGenerationParams.size := sz;
                ImageGenerationParams.quality := q; ImageGenerationParams.style := st;
                ImageGenerationParams.n := n |}).
  - intros (fields & params & -> & Hp & H2 & H3 & H4 & H5 & Hn & -> & _).
    rewrite parse_object, !parse_shape_cons. cbn [Zod.parse_shape].
    assert (E1 : Zod.parse Zod.ZString (default VUndefined (Zod.field (lit "prompt") fields))
                 = Some (VStr (ImageGenerationParams.prompt params)))
      by (apply parse_required_string_iff; eauto).
    assert (E2 : Zod.parse (Zod.ZDefault (Zod.ZOptional (Zod.ZEnum sizes)) (VStr (lit "1024x1024")))
                   (default VUndefined (Zod.field (lit "size") fields))
                 = Some (VStr (Size_text (ImageGenerationParams.size params)))).
    { apply parse_enum_default; [apply default_in_sizes|].
      eexists. split; [eassumption|]. split; [apply sizes_text; eauto|reflexivity]. }
    assert (E3 : Zod.parse (Zod.ZDefault (Zod.ZOptional (Zod.ZEnum qualities)) (VStr (lit "standard")))
                   (default VUndefined (Zod.field (lit "quality") fields))
                 = Some (VStr (Quality_text (ImageGenerationParams.quality params)))).
    { apply parse_enum_default; [apply default_in_qualities|].
      eexists. split; [eassumption|]. split; [apply qualities_text; eauto|reflexivity]. }
    assert (E4 : Zod.parse (Zod.ZDefault (Zod.ZOptional (Zod.ZEnum styles)) (VStr (lit "vivid")))
                   (default VUndefined (Zod.field (lit "style") fields))
                 = Some (VStr (Style_text (ImageGenerationParams.style params)))).
    { apply parse_enum_default; [apply default_in_styles|].
      eexists. split; [eassumption|]. split; [apply styles_text; eauto|reflexivity]. }
    assert (E5 : Zod.parse (Zod.ZDefault (Zod.ZOptional (Zod.ZNumber (Some 1%Z) (Some 10%Z))) (VNum 1))
                   (default VUndefined (Zod.field (lit "n") fields))
                 = Some (VNum (ImageGenerationParams.n params))).
    { apply parse_number_default; [reflexivity|]. eauto. }
    rewrite E1, E2, E3, E4, E5. reflexivity.
Qed.

Lemma generation_request_validation_witness :
  Zod.parse ImageGenerationRequestSchema
    (VObj [(lit "prompt", VStr (lit "a red fox")); (lit "n", VNum 2)])
  = Some (generation_args Scenario.red_fox_request).
Proof.
  apply (proj2 (generation_request_validation
                  (VObj [(lit "prompt", VStr (lit "a red fox")); (lit "n", VNum 2)])
                  (generation_args Scenario.red_fox_request))).
  exists [(lit "prompt", VStr (lit "a red fox")); (lit "n", VNum 2)], Scenario.red_fox_request.
  repeat split; try (vm_compute; reflexivity); vm_compute; discriminate.
Defined.

Lemma parse_shape_weaken shape1 shape2 fields : forall out,
  Forall2 (fun a b => fst a = fst b
                      /\ forall v r, Zod.parse (snd a) v = Some r -> Zod.parse (snd b) v = Some r)
          shape1 shape2 ->
  Zod.parse_shape shape1 fields = Some out ->
  Zod.parse_shape shape2 fields = Some out.
Proof.
  intros out H. revert out.
  induction H as [|[k1 s1] [k2 s2] sh1 sh2 [Hk Hs] _ IH]; intros out Hout; [assumption|].
  simpl in Hk, Hs. subst k2. rewrite parse_shape_cons in *.
  destruct (Zod.parse s1 _) as [r|] eqn:E; [|discriminate].
  rewrite (Hs _ _ E).
  destruct (Zod.parse_shape sh1 fields) as [o1|]; [|discriminate].
  now rewrite (IH _ eq_refl).
Qed.

Lemma with_default_accepts s d v r :
  Zod.parse s VUndefined = None ->
  Zod.parse s v = Some r ->
  Zod.parse (Zod.ZDefault (Zod.ZOptional s) d) v = Some r.
Proof. intros Hu H. destruct v; cbn [Zod.parse]; congruence. Qed.

Lemma parse_shape_missing shape fields k s :
  (k, s) ∈ shape -> Zod.field k fields = None -> Zod.parse s VUndefined = None ->
  Zod.parse_shape shape fields = None.
Proof.
  intros Hin Hk Hs. induction shape as [|[k' s'] shape IH]; [set_solver|].
  rewrite parse_shape_cons. apply elem_of_cons in Hin as [Heq|Hin].
  - injection Heq as <- <-. rewrite Hk. cbn [default from_option]. now rewrite Hs.
  - rewrite (IH Hin). now destruct (Zod.parse s' _).
Qed.

(** X2. The shape [main] registers for [image_generation] is stricter
    than [ImageGenerationRequestSchema]: whatever the registered shape
    accepts the shared schema accepts with the same output, the
    registered shape rejects every object that lacks one of [prompt],
    [size], [quality], [style] and [n], and the shared schema accepts an
    object with only a [prompt], filling in the four defaults. *)
Theorem registered_generation_shape_is_stricter :
  (forall v out,
      Zod.parse Registered.image_generation v = Some out ->
      Zod.parse ImageGenerationRequestSchema v = Some out)
  /\ (forall fields key,
         key ∈ [lit "prompt"; lit "size"; lit "quality"; lit "style"; lit "n"] ->
         Zod.field key fields = None ->
         Zod.parse Registered.image_generation (VObj fields) = None)
  /\ (forall p,
         Zod.parse ImageGenerationRequestSchema (VObj [(lit "prompt", VStr p)])
         = Some (VObj [ (lit "prompt", VStr p); (lit "size", VStr (lit "1024x1024"));
                        (lit "quality", VStr (lit "standard"));
                        (lit "style", VStr (lit "vivid")); (lit "n", VNum 1) ])).
Proof.
  split; [|split].
  - intros v out H. unfold Registered.image_generation in H.
    apply parse_object_inv in H as (fields & parsed & -> & -> & H).
    unfold ImageGenerationRequestSchema. rewrite parse_object.
    erewrite parse_shape_weaken; [reflexivity| |exact H].
    repeat (constructor; [split; [reflexivity|]|]); try constructor;
      intros v r Hv; try assumption; apply with_default_accepts; auto.
  - intros fields key Hkey Hnone. unfold Registered.image_generation.
    rewrite parse_object.
    repeat (apply elem_of_cons in Hkey as [->|Hkey]);
      [ rewrite (parse_shape_missing _ fields (lit "prompt") Zod.ZString)
      | rewrite (parse_shape_missing _ fields (lit "size") (Zod.ZEnum sizes))
      | rewrite (parse_shape_missing _ fields (lit "quality") (Zod.ZEnum qualities))
      | rewrite (parse_shape_missing _ fields (lit "style") (Zod.ZEnum styles))
      | rewrite (parse_shape_missing _ fields (lit "n") (Zod.ZNumber (Some 1%Z) (Some 10%Z)))
      | set_solver ];
      try reflexivity; try assumption; set_solver.
  - intros p. unfold ImageGenerationRequestSchema. rewrite parse_object, !parse_shape_cons.
    cbn [Zod.parse_shape Zod.field]. decide_keys. reflexivity.
Qed.

Lemma registered_generation_shape_is_stricter_witness :
  Zod.parse Registered.image_generation (VObj [(lit "prompt", VStr (lit "a red fox"))]) = None.
Proof.
  apply (proj1 (proj2 registered_generation_shape_is_stricter)
           [(lit "prompt", VStr (lit "a red fox"))] (lit "size")).
  - repeat constructor.
  - vm_compute. reflexivity.
Defined.

(** * Results against the schemas *)

(** The success result of the server's [generateImage] for the images
    [data]. *)
Lemma generateImage_with_data env params tr data :
  falsy (OPENAI_API_KEY env) = false ->
  images_generate env tr (or_else (OPENAI_API_KEY env) []) (generate_body params) = Return data ->
  exists result,
    Server.generateImage env params tr
    = (Return result,
       tr ++ [EvGenerate (or_else (OPENAI_API_KEY env) []) (generate_body params) (Return data)])
    /\ isError result = None
    /\ result_document result
       = Some (JObj [ (lit "urls", JArr (map (fun image => nullable (OpenAI.url image)) data));
                      (lit "revised_prompts",
                       JArr (map (fun image => nullable (OpenAI.revised_prompt image)) data)) ]).
Proof.
  intros Hkey Hgen. eexists. split; [|split].
  - unfold Server.generateImage. rewrite Hkey.
    unfold try_catch, bind, generate, ret. rewrite Hgen. reflexivity.
  - reflexivity.
  - unfold result_document, JSON_stringify.
    cbn [content serialize_fields omap list_omap serialize fst snd].
    now rewrite !serialize_optional_elements.
Qed.

Lemma generateImage_success_inv env params tr result tr' :
  Server.generateImage env params tr = (Return result, tr') ->
  isError result = None ->
  falsy (OPENAI_API_KEY env) = false
  /\ exists data,
       images_generate env tr (or_else (OPENAI_API_KEY env) []) (generate_body params)
       = Return data.
Proof.
  unfold Server.generateImage. destruct (falsy _); [discriminate|].
  unfold try_catch, bind, generate, ret.
  destruct (images_generate env tr _ _) as [data|[m|v]]; cbn [generation_failed].
  - intros _ _. eauto.
  - unfold ret. intros H; injection H as <- <-. discriminate.
  - discriminate.
Qed.

Lemma nullable_strings {A} (f : A -> option jstr) (l : list A) :
  (exists ss, map (fun a => of_json (nullable (f a))) l = map VStr ss)
  <-> Forall (fun a => is_Some (f a)) l.
Proof.
  induction l as [|a l IH]; simpl.
  - split; [constructor|]. now exists [].
  - split.
    + intros [[|s ss] H]; [discriminate|]. injection H as Ha Hl.
      constructor; [destruct (f a); [eauto|discriminate]|]. apply IH. eauto.
    + intros H. apply Forall_cons in H as [[s Hs] Hl]. apply IH in Hl as [ss Hss].
      exists (s :: ss). simpl. now rewrite Hs, Hss.
Qed.

Lemma strings_is_Some v : is_Some (strings v) <-> exists ss, v = VArr (map VStr ss).
Proof.
  split.
  - intros [ss H]. apply strings_Some in H. eauto.
  - intros [ss ->]. rewrite strings_map. eauto.
Qed.

(** The arguments a client builds for [save_generated_images] from the
    document of a generation result and a prompt. *)
Lemma save_view_of_generated (us rs : list jsval) p :
  is_Some (as_save_params (VObj [ (lit "urls", VArr us); (lit "prompt", VStr p);
                                  (lit "revisedPrompts", VArr rs) ]))
  <-> is_Some (strings (VArr us)) /\ is_Some (strings (VArr rs)).
Proof.
  unfold as_save_params, string_field. cbn [Zod.field]. decide_keys.
  cbn [mbind option_bind optional_of string_of].
  destruct (strings (VArr us)) as [l|]; destruct (strings (VArr rs)) as [l'|];
    split; intros H; try destruct H as [H1 H2]; eauto;
    first [discriminate | exfalso; eapply is_Some_None; eassumption].
Qed.

Lemma field_cons key k v rest :
  Zod.field key ((k, v) :: rest)
  = if bool_decide (k = key) then Some v else Zod.field key rest.
Proof. reflexivity. Qed.

Lemma nullable_array_strings {A} (f : A -> option jstr) (l : list A) :
  is_Some (strings (VArr (map (fun a => of_json (nullable (f a))) l)))
  <-> Forall (fun a => is_Some (f a)) l.
Proof.
  rewrite strings_is_Some, <- nullable_strings. split.
  - intros [ss H]. injection H as H. eauto.
  - intros [ss H]. exists ss. now rewrite H.
Qed.

Lemma save_request_accepts v :
  is_Some (Zod.parse SaveImagesRequestSchema v) <-> is_Some (as_save_params v).
Proof.
  pose proof (save_request_view v) as H.
  destruct (Zod.parse SaveImagesRequestSchema v) as [out|].
  - destruct H as (params & -> & _). split; eauto.
  - rewrite H. split; intros [? ?]; discriminate.
Qed.

(** X5. Generation into saving: when the provider answers, the [urls]
    and [revised_prompts] of the server's [generateImage] result, passed
    on as the [urls] and [revisedPrompts] of a save request, satisfy
    [SaveImagesRequestSchema] exactly when every image of the answer has
    both a URL and a revised prompt; an image without one becomes a
    [null] entry, which the schema rejects. *)
Theorem generated_output_as_save_input env params tr data p :
  falsy (OPENAI_API_KEY env) = false ->
  images_generate env tr (or_else (OPENAI_API_KEY env) []) (generate_body params) = Return data ->
  exists result urls revised,
    fst (Server.generateImage env params tr) = Return result
    /\ result_member (lit "urls") result = Some urls
    /\ result_member (lit "revised_prompts") result = Some revised
    /\ (is_Some (Zod.parse SaveImagesRequestSchema
                   (VObj [ (lit "urls", of_json urls); (lit "prompt", VStr p);
                           (lit "revisedPrompts", of_json revised) ]))
        <-> Forall (fun image => is_Some (OpenAI.url image)
                                 /\ is_Some (OpenAI.revised_prompt image)) data).
Proof.
  intros Hkey Hgen.
  destruct (generateImage_with_data env params tr data Hkey Hgen)
    as (result & Hrun & _ & Hdoc).
  exists result, (JArr (map (fun image => nullable (OpenAI.url image)) data)),
    (JArr (map (fun image => nullable (OpenAI.revised_prompt image)) data)).
  split; [now rewrite Hrun|].
  split; [unfold result_member; rewrite Hdoc; cbn [member assoc]; now decide_keys|].
  split; [unfold result_member; rewrite Hdoc; cbn [member assoc]; now decide_keys|].
  cbn [of_json]. rewrite !map_map.
  rewrite save_request_accepts, save_view_of_generated.
  rewrite (nullable_array_strings OpenAI.url), (nullable_array_strings OpenAI.revised_prompt).
  rewrite !Forall_forall. split.
  - intros [H1 H2] image Hi. split; auto.
  - intros H. split; intros image Hi; now apply H.
Qed.

Lemma generated_output_as_save_input_witness :
  exists result urls revised,
    fst (Server.generateImage Scenario.steady Scenario.red_fox_request []) = Return result
    /\ result_member (lit "revised_prompts") result = Some revised
    /\ result_member (lit "urls") result = Some urls
    /\ Zod.parse SaveImagesRequestSchema
         (VObj [ (lit "urls", of_json urls); (lit "prompt", VStr (lit "a red fox"));
                 (lit "revisedPrompts", of_json revised) ]) = None.
Proof.
  destruct (generated_output_as_save_input Scenario.steady Scenario.red_fox_request []
              Scenario.two_images (lit "a red fox"))
    as (result & urls & revised & Hrun & Hu & Hr & Hiff); [reflexivity|reflexivity|].
  exists result, urls, revised. do 3 (split; [assumption|]).
  destruct (Zod.parse SaveImagesRequestSchema _) as [out|]; [|reflexivity].
  exfalso. assert (Hall : Forall (fun image => is_Some (OpenAI.url image)
                                  /\ is_Some (OpenAI.revised_prompt image))
                            Scenario.two_images) by (apply Hiff; eauto).
  apply Forall_cons in Hall as [_ Hall]. apply Forall_cons in Hall as [[_ [x Hx]] _].
  discriminate.
Defined.

(** X6. Every success result of [saveImages] carries a JSON document that
    [SaveImagesResponseSchema] accepts unchanged. *)
Theorem save_response_conforms env params tr result tr' :
  Server.saveImages env params tr = (Return result, tr') ->
  isError result = None ->
  exists doc,
    result_document result = Some doc
    /\ Zod.parse SaveImagesResponseSchema (of_json doc) = Some (of_json doc).
Proof.
  intros Hrun Herr.
  destruct (saveImages_success_inv _ _ _ _ _ Hrun Herr) as (items & _ & _ & -> & _).
  eexists. split.
  - unfold result_document, Server.saved_result, JSON_stringify.
    cbn [content serialize_fields omap list_omap serialize fst snd].
    rewrite serialize_strings. reflexivity.
  - cbn [of_json map fst snd]. rewrite map_map. cbn [of_json].
    unfold SaveImagesResponseSchema. rewrite parse_object, !parse_shape_cons.
    cbn [Zod.parse_shape]. rewrite !field_cons. decide_keys.
    change (map (fun x : jstr => VStr x)) with (map VStr).
    cbn [default from_option id].
    assert (H : Zod.parse (Zod.ZArray Zod.ZString)
                  (VArr (map VStr (batch_paths
                     (target_dir env (SaveImagesParams.outputDir params))
                     (SaveImagesParams.prompt params) 0 items)))
                = Some (VArr (map VStr (batch_paths
                     (target_dir env (SaveImagesParams.outputDir params))
                     (SaveImagesParams.prompt params) 0 items))))
      by (apply parse_string_array; eauto).
    rewrite H. reflexivity.
Qed.

Lemma save_response_conforms_witness :
  exists doc,
    result_document (Server.saved_result Scenario.red_fox
                       [RedFoxRun.first_path; RedFoxRun.second_path]) = Some doc
    /\ Zod.parse SaveImagesResponseSchema (of_json doc) = Some (of_json doc).
Proof.
  destruct (Server.saveImages Scenario.steady Scenario.red_fox []) as [o tr'] eqn:Hrun.
  pose proof Hrun as Hval. vm_compute in Hval. injection Hval as <- <-.
  destruct (save_response_conforms Scenario.steady Scenario.red_fox [] _ _ Hrun eq_refl)
    as (doc & Hdoc & Hparse).
  exists doc. split; [|exact Hparse].
  vm_compute in Hdoc. vm_compute. exact Hdoc.
Defined.

(** X7. No success result of the server's [generateImage] satisfies
    [ImageGenerationResponseSchema]: its document has [urls] and
    [revised_prompts], and no [images] member. *)
Theorem generation_response_not_declared env params tr result tr' :
  Server.generateImage env params tr = (Return result, tr') ->
  isError result = None ->
  exists doc,
    result_document result = Some doc
    /\ member (lit "images") doc = None
    /\ Zod.parse ImageGenerationResponseSchema (of_json doc) = None.
Proof.
  intros Hrun Herr.
  destruct (generateImage_success_inv _ _ _ _ _ Hrun Herr) as (Hkey & data & Hgen).
  destruct (generateImage_with_data env params tr data Hkey Hgen)
    as (result' & Hrun' & _ & Hdoc).
  rewrite Hrun in Hrun'. injection Hrun' as -> _.
  eexists. split; [exact Hdoc|]. split.
  - cbn [member assoc]. now decide_keys.
  - cbn [of_json map fst snd]. unfold ImageGenerationResponseSchema.
    rewrite parse_object, parse_shape_cons. cbn [Zod.field]. now decide_keys.
Qed.

Lemma generation_response_not_declared_witness :
  exists result doc,
    fst (Server.generateImage Scenario.steady Scenario.red_fox_request []) = Return result
    /\ result_document result = Some doc
    /\ Zod.parse ImageGenerationResponseSchema (of_json doc) = None.
Proof.
  destruct (Server.generateImage Scenario.steady Scenario.red_fox_request [])
    as [o tr'] eqn:Hrun.
  pose proof Hrun as Hval. vm_compute in Hval. injection Hval as <- <-.
  destruct (generation_response_not_declared Scenario.steady Scenario.red_fox_request []
              _ _ Hrun eq_refl) as (doc & Hdoc & _ & Hparse).
  eexists _, doc. split; [reflexivity|]. split; assumption.
Defined.

(** X3. [SaveImagesRequestSchema], and the shape [main] registers for
    [save_generated_images], which validates alike, accept a value
    exactly when it reads as [SaveImagesParams]: an object with an array
    of strings [urls], a string [prompt] and, when given, an array of
    strings [revisedPrompts] and a string [outputDir]; the output reads
    as the same parameters. *)
Theorem save_request_validation v :
  Zod.parse Registered.save_generated_images v = Zod.parse SaveImagesRequestSchema v
  /\ match Zod.parse SaveImagesRequestSchema v with
     | Some out =>
         exists params, as_save_params v = Some params /\ as_save_params out = Some params
     | None => as_save_params v = None
     end.
Proof. split; [reflexivity|apply save_request_view]. Qed.

(** X4. Round trip: the arguments written for any [SaveImagesParams]
    (optional members left out when absent) are accepted by
    [SaveImagesRequestSchema], and the output reads back as the same
    parameters. *)
Theorem save_request_round_trip params :
  exists out,
    Zod.parse SaveImagesRequestSchema (save_args params) = Some out
    /\ as_save_params out = Some params.
Proof.
  pose proof (save_request_view (save_args params)) as H.
  rewrite as_save_params_args in H.
  destruct (Zod.parse SaveImagesRequestSchema _) as [out|]; [|discriminate].
  destruct H as (params' & H1 & H2). injection H1 as <-. eauto.
Qed.

(** * Every outcome of the saving loop *)

Lemma plain_with_json name : Path.plain name -> Path.plain (name ++ lit ".json").
Proof.
  intros (Hs & Hne & _).
  assert (Hlen : (5 <= length (name ++ lit ".json"))%nat)
    by (rewrite length_app; change (length (lit ".json")) with 5%nat; lia).
  split; [|repeat split; intros E; rewrite E in Hlen; simpl in Hlen; lia].
  intros H. apply elem_of_app in H as [H|H]; [contradiction|].
  vm_compute in H. set_solver.
Qed.

Lemma image_direct_child dir prompt t i :
  direct_child dir (Path.join [dir; filename prompt t i]).
Proof. exists (filename prompt t i). split; [apply filename_plain|reflexivity]. Qed.

Lemma sidecar_direct_child dir prompt t i :
  dir <> [] ->
  direct_child dir (Path.join [dir; filename prompt t i] ++ lit ".json").
Proof.
  intros Hdir. exists (filename prompt t i ++ lit ".json").
  split; [apply plain_with_json, filename_plain|].
  rewrite !join_plain; auto using filename_plain, plain_with_json, app_assoc.
Qed.

Section Outcomes.

Variables (env : Env) (targetDir prompt : jstr) (revisedPrompts : list (option jstr)).
Hypothesis targetDir_nonempty : targetDir <> [].

(** One pass, however it ends: it attempts exactly the download of its
    URL, writes at most two files, both directly inside the target
    directory, and interacts with nothing else but the clock. *)
Lemma save_one_new i u tr o tr' :
  Server.save_one env targetDir prompt revisedPrompts i u tr = (o, tr') ->
  exists new,
    tr' = tr ++ new
    /\ downloads new = [u]
    /\ Forall (loop_event targetDir) new
    /\ (length (written new) <= 2)%nat
    /\ (forall p, o = Return p -> length (written new) = 2%nat).
Proof.
  unfold Server.save_one, bind, fetch, await, Date_now, writeFile, ret.
  destruct (net_fetch env tr u) as [[st [bytes|e0]]|e0] eqn:Hf; cbn [arrayBuffer].
  - set (t := clock env _).
    destruct (fs_writeFile env _ _ (Binary bytes)) as [[]|e1] eqn:Hw1.
    + destruct (fs_writeFile env _ _ (Utf8 _)) as [[]|e2] eqn:Hw2;
        intros H; injection H as <- <-; rewrite <- !app_assoc; cbn [app];
        eexists; (split; [reflexivity|]); (split; [reflexivity|]);
        (split; [|split; [simpl; lia|intros p Hp; first [reflexivity|discriminate]]]);
        repeat constructor; cbn [loop_event];
        auto using image_direct_child, sidecar_direct_child.
    + intros H; injection H as <- <-; rewrite <- !app_assoc; cbn [app].
      eexists. split; [reflexivity|]. split; [reflexivity|].
      split; [|split; [simpl; lia|discriminate]].
      repeat constructor. apply image_direct_child.
  - intros H; injection H as <- <-. eexists. split; [reflexivity|].
    split; [reflexivity|]. split; [repeat constructor|]. split; [simpl; lia|discriminate].
  - intros H; injection H as <- <-. eexists. split; [reflexivity|].
    split; [reflexivity|]. split; [repeat constructor|]. split; [simpl; lia|discriminate].
Qed.

(** The loop, however it ends: it attempts the downloads of a prefix of
    its URLs, in order, and of all of them when it returns. *)
Lemma save_loop_new rest : forall i acc tr o tr',
  Server.save_loop env targetDir prompt revisedPrompts i rest acc tr = (o, tr') ->
  exists new j,
    tr' = tr ++ new
    /\ (j <= length rest)%nat
    /\ downloads new = take j rest
    /\ Forall (loop_event targetDir) new
    /\ (length (written new) <= 2 * j)%nat
    /\ (forall ps, o = Return ps ->
          j = length rest /\ length (written new) = (2 * j)%nat
          /\ length ps = (length acc + length rest)%nat).
Proof.
  induction rest as [|u rest IH]; intros i acc tr o tr' H.
  - injection H as <- <-. exists [], 0%nat. rewrite app_nil_r.
    repeat split; auto; try (simpl; lia). injection H as <-. simpl. lia.
  - cbn [Server.save_loop] in H. unfold bind at 1 in H.
    destruct (Server.save_one _ _ _ _ _ _ _) as [[p|e] tr1] eqn:H1.
    + apply save_one_new in H1 as (new1 & -> & Hd1 & Hl1 & Hw1 & Hr1).
      apply IH in H as (new & j & -> & Hj & Hd & Hl & Hw & Hr).
      exists (new1 ++ new), (S j). rewrite <- app_assoc.
      split; [reflexivity|]. split; [simpl; lia|].
      split; [rewrite downloads_app, Hd1, Hd; reflexivity|].
      split; [now apply Forall_app|].
      rewrite written_app, length_app, (Hr1 p eq_refl).
      split; [lia|]. intros ps Hps. destruct (Hr ps Hps) as (-> & Hwr & Hps').
      rewrite length_app in Hps'. simpl in *. lia.
    + injection H as <- <-.
      apply save_one_new in H1 as (new1 & -> & Hd1 & Hl1 & Hw1 & Hr1).
      exists new1, 1%nat. split; [reflexivity|]. split; [simpl; lia|].
      split; [now rewrite Hd1|]. split; [assumption|]. split; [simpl; lia|discriminate].
Qed.

End Outcomes.

(** A call of [saveImages], however it ends: after the attempt to
    create the target directory come the interactions of the loop. *)
Lemma saveImages_new env params tr :
  let urls := SaveImagesParams.urls params in
  let dir := target_dir env (SaveImagesParams.outputDir params) in
  let run := Server.saveImages env params tr in
  exists new j,
    snd run = tr ++ EvMkdir dir (fs_mkdir env tr dir) :: new
    /\ (j <= length urls)%nat
    /\ downloads new = take j urls
    /\ Forall (loop_event dir) new
    /\ (length (written new) <= 2 * j)%nat
    /\ (forall e, fs_mkdir env tr dir = Throw e -> new = [])
    /\ (forall result, fst run = Return result -> isError result = None ->
          j = length urls /\ length (written new) = (2 * j)%nat).
Proof.
  intros urls dir run. subst run.
  pose proof (target_dir_nonempty env (SaveImagesParams.outputDir params)) as Hdir.
  fold dir in Hdir.
  unfold Server.saveImages, try_catch, bind. rewrite saveGeneratedImages_eq. cbv zeta.
  fold dir urls.
  destruct (fs_mkdir env tr dir) as [[]|e0] eqn:Hmk.
  - destruct (Server.save_loop _ _ _ _ _ _ _ _) as [o tr'] eqn:Hloop.
    apply (save_loop_new _ _ _ _ Hdir) in Hloop as (new & j & -> & Hj & Hd & Hl & Hw & Hr).
    exists new, j.
    assert (Htr : forall x : Outcome CallToolResult,
               snd (x, (tr ++ [EvMkdir dir (Return tt)]) ++ new)
               = tr ++ EvMkdir dir (Return tt) :: new)
      by (intros x; cbn [snd]; now rewrite <- app_assoc).
    destruct o as [ps|[m|v]]; cbn [fst snd ret throw]; unfold ret, throw; rewrite ?Htr;
      (split; [cbn [snd]; now rewrite <- app_assoc|]);
      do 4 (split; [assumption|]); (split; [discriminate|]).
    + intros result _ _. now destruct (Hr ps eq_refl) as (-> & Hwr & _).
    + intros result H Herr. injection H as <-. discriminate.
    + discriminate.
  - exists [], 0%nat. cbn [fst snd]. unfold ret. cbn [fst snd].
    split; [reflexivity|]. split; [lia|]. split; [reflexivity|].
    split; [constructor|]. split; [simpl; lia|]. split; [reflexivity|].
    intros result H Herr. injection H as <-. discriminate.
Qed.

(** X9. Whatever the environment does, the downloads [saveImages]
    attempts are a prefix of [urls], in the order of [urls], and it
    writes at most two files per download; it downloads nothing when the
    directory cannot be created, and a success result means that every
    entry of [urls] was downloaded and exactly two files per entry were
    written. *)
Theorem downloads_in_order env params tr :
  let urls := SaveImagesParams.urls params in
  let dir := target_dir env (SaveImagesParams.outputDir params) in
  let run := Server.saveImages env params tr in
  exists j,
    (j <= length urls)%nat
    /\ downloads (snd run) = downloads tr ++ take j urls
    /\ (length (written (snd run)) <= length (written tr) + 2 * j)%nat
    /\ (forall e, fs_mkdir env tr dir = Throw e -> j = 0%nat)
    /\ (forall result, fst run = Return result -> isError result = None ->
          j = length urls
          /\ length (written (snd run)) = (length (written tr) + 2 * length urls)%nat).
Proof.
  intros urls dir run.
  destruct (saveImages_new env params tr) as (new & j & Htr & Hj & Hd & _ & Hw & Hmk & Hok).
  fold urls dir run in Htr, Hj, Hd, Hw, Hmk, Hok.
  assert (Hdown : downloads (snd run) = downloads tr ++ take j urls).
  { rewrite Htr. change (EvMkdir dir (fs_mkdir env tr dir) :: new)
      with ([EvMkdir dir (fs_mkdir env tr dir)] ++ new).
    rewrite !downloads_app, Hd. reflexivity. }
  assert (Hwr : length (written (snd run))
                = (length (written tr) + length (written new))%nat).
  { rewrite Htr. change (EvMkdir dir (fs_mkdir env tr dir) :: new)
      with ([EvMkdir dir (fs_mkdir env tr dir)] ++ new).
    rewrite !written_app, !length_app.
    destruct (fs_mkdir env tr dir) as [[]|]; simpl; lia. }
  exists j. split; [assumption|]. split; [assumption|]. split; [lia|].
  split.
  - intros e He. specialize (Hmk e He). subst new.
    apply (f_equal length) in Hd. rewrite length_take in Hd. simpl in Hd. lia.
  - intros result Hres Herr. destruct (Hok result Hres Herr) as [-> Hlen].
    split; [reflexivity|lia].
Qed.

Lemma downloads_in_order_witness :
  downloads (snd (Server.saveImages Flaky.env Scenario.red_fox []))
  = [lit "http://x/1.png"; lit "http://x/2.png"]
  /\ length (written (snd (Server.saveImages Flaky.env Scenario.red_fox []))) = 2%nat.
Proof.
  destruct (downloads_in_order Flaky.env Scenario.red_fox []) as (j & _ & _ & _ & _ & _).
  split; vm_compute; reflexivity.
Defined.

(** X10. Whatever the environment does, [saveImages] only appends to the
    history, never calls the image provider, makes no [mkdir] call on
    anything but the target directory (the call is recursive, so the
    file system may create missing ancestors of the target with it), and
    writes only to files directly inside the target directory. *)
Theorem save_interactions_confined env params tr :
  let dir := target_dir env (SaveImagesParams.outputDir params) in
  exists new,
    snd (Server.saveImages env params tr) = tr ++ new
    /\ provider_calls new = []
    /\ (forall d r, EvMkdir d r ∈ new -> d = dir)
    /\ (forall file data r, EvWriteFile file data r ∈ new ->
          exists name, Path.plain name /\ file = Path.join [dir; name]).
Proof.
  intros dir.
  destruct (saveImages_new env params tr) as (new & j & Htr & _ & _ & Hl & _).
  fold dir in Htr, Hl.
  exists (EvMkdir dir (fs_mkdir env tr dir) :: new). split; [assumption|].
  rewrite Forall_forall in Hl.
  split; [|split].
  - change (provider_calls new = []).
    clear Htr. induction new as [|ev new IH]; [reflexivity|].
    assert (Hev : loop_event dir ev) by (apply Hl; set_solver).
    assert (IH' : provider_calls new = []) by (apply IH; intros; apply Hl; set_solver).
    destruct ev; try contradiction; exact IH'.
  - intros d r H. apply elem_of_cons in H as [H|H]; [now injection H|].
    apply Hl in H. contradiction.
  - intros file data r H. apply elem_of_cons in H as [H|H]; [discriminate|].
    apply Hl in H. exact H.
Qed.

Lemma save_interactions_confined_witness :
  exists new,
    snd (Server.saveImages Scenario.steady Scenario.red_fox []) = new
    /\ provider_calls new = [].
Proof.
  destruct (save_interactions_confined Scenario.steady Scenario.red_fox [])
    as (new & Htr & Hp & _).
  exists new. split; assumption.
Defined.

(** * Failures of the file system *)

(** X11. When the target directory cannot be created, whatever was thrown
    ([Error] or not), [saveImages] returns an error result whose text is
    [Failed to save images: Failed to create directory: ] followed by
    the message of the failure, and does nothing after the attempt: no
    download, no clock reading, no write. *)
Theorem directory_failure_is_reported env params tr e :
  let dir := target_dir env (SaveImagesParams.outputDir params) in
  fs_mkdir env tr dir = Throw e ->
  Server.saveImages env params tr
  = (Return (error_result (lit "Failed to save images: "
                             ++ lit "Failed to create directory: " ++ Server.message_of e)),
     tr ++ [EvMkdir dir (Throw e)]).
Proof.
  intros dir Hmk. unfold Server.saveImages, try_catch, bind.
  rewrite saveGeneratedImages_eq. cbv zeta. fold dir. rewrite Hmk. reflexivity.
Qed.

Lemma directory_failure_is_reported_witness :
  Server.saveImages ReadOnly.env Scenario.red_fox []
  = (Return (error_result (lit "Failed to save images: "
                             ++ lit "Failed to create directory: "
                             ++ lit "EACCES: permission denied, mkdir")),
     [EvMkdir (lit "/tmp/out") (Throw (ErrorObj (lit "EACCES: permission denied, mkdir")))]).
Proof.
  apply (directory_failure_is_reported ReadOnly.env Scenario.red_fox []
           (ErrorObj (lit "EACCES: permission denied, mkdir"))).
  reflexivity.
Defined.






(** * A successful call *)

(** X14. A success result of [saveImages] lists one path per URL: the
    paths are pairwise distinct, each is a file directly inside the
    target directory that holds binary data on the resulting disk, and
    the message gives their number and [outputDir], or [images] when no
    [outputDir] was given. *)
Theorem success_reports_every_url env params tr result tr' :
  let urls := SaveImagesParams.urls params in
  let outputDir := SaveImagesParams.outputDir params in
  let dir := target_dir env outputDir in
  Server.saveImages env params tr = (Return result, tr') ->
  isError result = None ->
  exists paths,
    result_member (lit "saved_paths") result = Some (JArr (map JStr paths))
    /\ length paths = length urls
    /\ NoDup paths
    /\ Forall (fun p => direct_child dir p /\ exists bytes, disk tr' !! p = Some (Binary bytes))
              paths
    /\ result_member (lit "message") result
       = Some (JStr (lit "Successfully saved " ++ Number_toString (Z.of_nat (length urls))
                       ++ lit " images to " ++ or_else outputDir (lit "images")
                       ++ lit " directory")).
Proof.
  intros urls outputDir dir Hrun Herr.
  pose proof (target_dir_nonempty env outputDir) as Hdir. fold dir in Hdir.
  destruct (saveImages_success_inv _ _ _ _ _ Hrun Herr)
    as (items & _ & Hus & -> & -> & _).
  fold urls outputDir dir in Hus |- *.
  set (prompt := SaveImagesParams.prompt params).
  set (rps := Server.revisedPrompts_or_default params).
  assert (Hlen : length (batch_paths dir prompt 0 items) = length urls)
    by (rewrite batch_paths_length, <- Hus, length_map; reflexivity).
  exists (batch_paths dir prompt 0 items).
  split; [apply saved_result_paths|]. split; [assumption|].
  split; [now apply batch_paths_NoDup|].
  split; [|rewrite saved_result_message, Hlen; reflexivity].
  apply Forall_forall. intros p Hp. apply list_elem_of_lookup in Hp as [k Hk].
  destruct (items !! k) as [it|] eqn:Hit.
  - rewrite (batch_paths_lookup dir prompt 0 items k it Hit) in Hk. injection Hk as <-.
    split; [apply image_direct_child|]. exists (sv_bytes it).
    destruct (batch_writes_lookup dir prompt rps 0 items k it Hit) as [H1 _].
    rewrite disk_app. apply apply_events_written; rewrite written_batch_events;
      [now apply batch_writes_NoDup|exact H1].
  - apply lookup_ge_None in Hit. apply lookup_lt_Some in Hk.
    rewrite batch_paths_length in Hk. lia.
Qed.

Lemma success_reports_every_url_witness :
  exists paths,
    length paths = 2%nat /\ NoDup paths
    /\ Forall (fun p => direct_child (lit "/tmp/out") p) paths.
Proof.
  destruct (Server.saveImages Scenario.steady Scenario.red_fox []) as [o tr'] eqn:Hrun.
  pose proof Hrun as Hval. vm_compute in Hval. injection Hval as <- <-.
  destruct (success_reports_every_url Scenario.steady Scenario.red_fox [] _ _ Hrun eq_refl)
    as (paths & _ & Hlen & Hnd & Hall & _).
  exists paths. split; [exact Hlen|]. split; [exact Hnd|].
  eapply Forall_impl; [exact Hall|]. intros p [Hp _]. exact Hp.
Defined.

(** * Names, as a user of the disk sees them *)

Lemma Number_toString_units z :
  Forall (fun c => Unit.is_digit c = true \/ c = Unit.hyphen) (Number_toString z).
Proof.
  assert (Hd : forall d, Forall (fun c => Unit.is_digit c = true \/ c = Unit.hyphen)
                           (uint_units d)).
  { intros d. eapply Forall_impl; [apply uint_units_digits|]. auto. }
  unfold Number_toString. destruct (Z.to_int z); [apply Hd|].
  constructor; [now right|apply Hd].
Qed.

Lemma Number_toString_nonneg_digits z :
  (0 <= z)%Z -> Forall (fun c => Unit.is_digit c = true) (Number_toString z).
Proof. intros Hz. rewrite <- (Z2Nat.id z Hz). apply Number_toString_index_digits. Qed.

(** X15. Whatever the prompt, timestamp and index, the file name consists
    of lower-case ASCII letters, digits, hyphens and dots only, starts
    with a prompt part of [min 30 (length prompt)] units and ends in
    [.png]. *)
Theorem filename_is_portable p t i :
  Forall (fun c => portable_unit c = true) (filename p t i)
  /\ length (safePrompt p) = Nat.min 30 (length p)
  /\ exists stem, filename p t i = safePrompt p ++ stem ++ lit ".png".
Proof.
  split; [|split].
  - rewrite filename_unfold.
    assert (Hs : Forall (fun c => portable_unit c = true) (safePrompt p)).
    { eapply Forall_impl; [apply safePrompt_ascii|]. intros c Hc.
      unfold portable_unit. unfold safe_unit in Hc. now rewrite Hc. }
    assert (Hn : forall z, Forall (fun c => portable_unit c = true) (Number_toString z)).
    { intros z. eapply Forall_impl; [apply Number_toString_units|].
      intros c [Hc| ->]; [|reflexivity]. unfold portable_unit. rewrite Hc.
      now rewrite orb_true_r. }
    apply Forall_app. split; [assumption|]. constructor; [reflexivity|].
    apply Forall_app. split; [apply Hn|]. constructor; [reflexivity|].
    apply Forall_app. split; [apply Hn|]. repeat constructor.
  - rewrite safePrompt_spec, !length_map, length_take. lia.
  - exists (Unit.hyphen :: Number_toString t ++ Unit.hyphen :: Number_toString (Z.of_nat i)).
    rewrite filename_unfold. cbn [app]. now rewrite <- !app_assoc.
Qed.

Lemma hyphen_not_in_digits l :
  Forall (fun c => Unit.is_digit c = true) l -> Unit.hyphen ∉ l.
Proof.
  intros H Hin. rewrite Forall_forall in H. apply H in Hin.
  now apply digit_not_hyphen in Hin.
Qed.

(** X16. For timestamps that are not negative, two file names are equal
    exactly when the safe prompts, the timestamps and the indices are
    equal: different prompts collide only through the same safe prompt
    at the same millisecond and index. *)
Theorem filenames_collide_iff p1 t1 i1 p2 t2 i2 :
  (0 <= t1)%Z -> (0 <= t2)%Z ->
  filename p1 t1 i1 = filename p2 t2 i2
  <-> safePrompt p1 = safePrompt p2 /\ t1 = t2 /\ i1 = i2.
Proof.
  intros H1 H2. split.
  - rewrite !filename_unfold. intros H.
    change (safePrompt p1 ++ Unit.hyphen :: Number_toString t1
              ++ Unit.hyphen :: Number_toString (Z.of_nat i1) ++ extension)
      with (safePrompt p1 ++ [Unit.hyphen] ++ Number_toString t1
              ++ Unit.hyphen :: Number_toString (Z.of_nat i1) ++ extension) in H.
    change (safePrompt p2 ++ Unit.hyphen :: Number_toString t2
              ++ Unit.hyphen :: Number_toString (Z.of_nat i2) ++ extension)
      with (safePrompt p2 ++ [Unit.hyphen] ++ Number_toString t2
              ++ Unit.hyphen :: Number_toString (Z.of_nat i2) ++ extension) in H.
    rewrite !app_assoc in H. rewrite <- !(app_assoc _ [Unit.hyphen]) in H.
    apply app_sep_inv in H as [Hst Hi]; try apply hyphen_not_in_index_ext.
    apply app_inv_tail in Hi. apply Number_toString_inj in Hi.
    cbn [app] in Hst.
    apply app_sep_inv in Hst as [Hs Ht];
      try (apply hyphen_not_in_digits, Number_toString_nonneg_digits; assumption).
    apply Number_toString_inj in Ht. split; [assumption|]. split; [assumption|lia].
  - intros (Hs & -> & ->). unfold filename. now rewrite Hs.
Qed.

Lemma filenames_collide_iff_witness :
  filename (lit "Cat!") 1700000000000 0 = filename (lit "cat?") 1700000000000 0.
Proof.
  apply (filenames_collide_iff (lit "Cat!") 1700000000000 0 (lit "cat?") 1700000000000 0);
    [lia|lia|].
  split; [vm_compute; reflexivity|]. split; reflexivity.
Defined.

(** A negative clock reading brings its own hyphen, and then a name no
    longer tells the prompt from the timestamp. *)
Example filename_with_negative_timestamp :
  filename (lit "a") (-5) 0 = filename (lit "a-") 5 0.
Proof. vm_compute. reflexivity. Qed.

(** * The two generation handlers *)

(** X8. The [generateImage] of the server file and the one of
    [shared/imageGeneration] interact alike: the same history, which with
    a credential is the old one followed by exactly one provider call,
    made with the credential, the model [dall-e-3] and the caller's
    prompt, size, quality, style and number of images; the same thrown
    values; the same error results.  They differ in a success result
    only: the shared one holds one image item of type [image/png] per
    image of the answer, carrying its URL, where the server's holds the
    URLs as JSON text. *)
Theorem generation_variants_agree env params tr :
  let key := or_else (OPENAI_API_KEY env) [] in
  let request := {| model := lit "dall-e-3"; body := params |} in
  let answer := images_generate env tr key request in
  let server := Server.generateImage env params tr in
  let shared := ImageGeneration.generateImage env params tr in
  snd server = snd shared
  /\ (falsy (OPENAI_API_KEY env) = false ->
      OPENAI_API_KEY env = Some key
      /\ snd shared = tr ++ [EvGenerate key request answer]
      /\ provider_calls (snd shared) = provider_calls tr ++ [request])
  /\ (forall e, fst server = Throw e <-> fst shared = Throw e)
  /\ (forall r, isError r = Some true -> fst server = Return r <-> fst shared = Return r)
  /\ (forall r, fst shared = Return r -> isError r = None ->
      exists data,
        answer = Return data
        /\ content r = map (fun image => ImageContent (OpenAI.url image) (lit "image/png")) data
        /\ exists r', fst server = Return r' /\ isError r' = None
                      /\ result_member (lit "urls") r'
                         = Some (JArr (map (fun image => nullable (OpenAI.url image)) data))).
Proof.
  intros key request answer server shared. subst server shared.
  unfold Server.generateImage, ImageGeneration.generateImage.
  destruct (falsy (OPENAI_API_KEY env)) eqn:Hkey.
  - unfold throw. cbn [fst snd]. repeat split; try tauto; try discriminate.
  - assert (Hsome : OPENAI_API_KEY env = Some key).
    { unfold key, or_else. unfold falsy in Hkey.
      destruct (OPENAI_API_KEY env) as [[|c s]|]; try discriminate. reflexivity. }
    unfold try_catch, bind, generate, ret. fold key.
    change (generate_body params) with request. fold answer.
    assert (Hcalls : forall r : Outcome (list OpenAI.Image),
               provider_calls (tr ++ [EvGenerate key request r])
               = provider_calls tr ++ [request]).
    { intros r. unfold provider_calls. now rewrite omap_app. }
    destruct answer as [data|[m|v]] eqn:Hanswer; cbn [generation_failed fst snd];
      unfold ret, throw; cbn [fst snd].
    + split; [reflexivity|]. split; [auto|]. split; [split; discriminate|].
      split.
      * intros r Hr. split; intros H; injection H as <-; discriminate.
      * intros r H _. injection H as <-. exists data. split; [reflexivity|].
        split; [reflexivity|].
        destruct (generateImage_with_data env params tr data Hkey Hanswer)
          as (r' & Hrun & Herr & Hdoc).
        exists r'. unfold Server.generateImage in Hrun. rewrite Hkey in Hrun.
        unfold try_catch, bind, generate, ret in Hrun. fold key in Hrun.
        change (generate_body params) with request in Hrun.
        fold answer in Hrun. rewrite Hanswer in Hrun. injection Hrun as Hr'.
        split; [now rewrite Hr'|]. split; [assumption|].
        unfold result_member. rewrite Hdoc. cbn [member assoc]. decide_keys. reflexivity.
    + repeat split; try tauto; try discriminate; auto.
      intros r H Hr. injection H as <-. discriminate.
    + repeat split; try tauto; try discriminate; auto.
Qed.

Lemma generation_variants_agree_witness :
  fst (ImageGeneration.generateImage Overloaded.env Scenario.red_fox_request [])
  = Return (error_result (lit "Image generation failed: 429 Rate limit exceeded")).
Proof.
  destruct (generation_variants_agree Overloaded.env Scenario.red_fox_request [])
    as (_ & _ & _ & Herr & _).
  apply Herr; [reflexivity|]. vm_compute. reflexivity.
Defined.

(** * The target directory *)

Lemma mkdir_calls_app tr1 tr2 :
  mkdir_calls (tr1 ++ tr2) = mkdir_calls tr1 ++ mkdir_calls tr2.
Proof. apply omap_app. Qed.

Lemma loop_makes_no_directory dir new :
  Forall (loop_event dir) new -> mkdir_calls new = [].
Proof.
  induction 1 as [|ev new Hev _ IH]; [reflexivity|].
  destruct ev as [d r|u r|t|file data r|key req r]; cbn [loop_event] in Hev;
    try contradiction; exact IH.
Qed.

(** X17. The first interaction of [saveImages] is always the recursive
    [mkdir] call on the target directory, and it is the only [mkdir]
    call of the run.  An [outputDir] that is not empty is the target as
    it was given, absolute or not; an absent or empty one stands for
    [images] under the working directory. *)
Theorem directory_is_created_first env params tr :
  let outputDir := SaveImagesParams.outputDir params in
  let dir := target_dir env outputDir in
  let run := Server.saveImages env params tr in
  (exists rest,
      snd run = tr ++ EvMkdir dir (fs_mkdir env tr dir) :: rest
      /\ mkdir_calls rest = [])
  /\ mkdir_calls (snd run) = mkdir_calls tr ++ [dir]
  /\ (falsy outputDir = true -> dir = Path.join [cwd env; lit "images"])
  /\ (forall d, outputDir = Some d -> d <> [] -> dir = d).
Proof.
  intros outputDir dir run.
  destruct (saveImages_new env params tr) as (new & j & Hrun & _ & _ & Hloop & _).
  fold outputDir dir run in Hrun, Hloop.
  pose proof (loop_makes_no_directory dir new Hloop) as Hnone.
  split; [|split; [|split]].
  - now exists new.
  - rewrite Hrun, mkdir_calls_app. f_equal.
    change (EvMkdir dir (fs_mkdir env tr dir) :: new)
      with ([EvMkdir dir (fs_mkdir env tr dir)] ++ new).
    now rewrite mkdir_calls_app, Hnone, app_nil_r.
  - unfold dir, target_dir, or_else, falsy.
    destruct outputDir as [[|c s]|]; [reflexivity|discriminate|reflexivity].
  - intros d Hd Hne. unfold dir, target_dir, or_else. rewrite Hd. now destruct d.
Qed.

Lemma directory_is_created_first_witness :
  target_dir Scenario.steady (Some (lit "images")) = lit "images"
  /\ target_dir Scenario.steady (Some []) = lit "/srv/app/images".
Proof.
  destruct (directory_is_created_first Scenario.steady
              {| SaveImagesParams.urls := []; SaveImagesParams.prompt := [];
                 SaveImagesParams.revisedPrompts := None;
                 SaveImagesParams.outputDir := Some (lit "images") |} [])
    as (_ & _ & _ & Hgiven).
  destruct (directory_is_created_first Scenario.steady
              {| SaveImagesParams.urls := []; SaveImagesParams.prompt := [];
                 SaveImagesParams.revisedPrompts := None;
                 SaveImagesParams.outputDir := Some [] |} [])
    as (_ & _ & Hempty & _).
  split.
  - cbn [SaveImagesParams.outputDir] in Hgiven. apply Hgiven; [reflexivity|vm_compute; discriminate].
  - cbn [SaveImagesParams.outputDir] in Hempty. rewrite Hempty; [vm_compute; reflexivity|reflexivity].
Defined.
